(** * GCN layers over a graph's node-data store (examples/pytorch/gcn/gcn_spmv.py)

    A shallow embedding of [GCNLayer], [EglGCNLayer], [GCN] and [EglGCN].

    - Tensor entries are an abstract scalar type (class [Scalar]): nothing
      below depends on how the tensor library rounds.
    - The tensor-library calls whose insides the script never sees
      (torch.mm, nn.Dropout, uniform_) are the fields of class [Extern];
      the activation is an argument, as in the script: any callable, which
      may draw from the random generator.
    - The elementwise operators * and + are written out, with the
      broadcasting of the tensor library, over tensors that are lists of
      rows, one row per node.
    - [g.ndata] is used by the script as a dictionary from keys to tensor
      objects; tensor objects live in a heap, so that two names for one
      object are visible.
    - The graph library's message passing and the accelerator's context
      manager are not part of the file: they are modelled from the
      specification's glossary. The with-block of EglGCNLayer.forward is
      part of the file: it is the program the context manager runs at
      the vertices it is given.
    - Every method is a computation in [M]: it threads the world (heap,
      node-data store, random state, event trace) and may raise. The
      trace records each library call and each arithmetic operator the
      script applies. *)

From Stdlib Require Import ZArith QArith.
From stdpp Require Import base option list strings gmap.

Local Open Scope string_scope.
Local Open Scope list_scope.
Local Open Scope nat_scope.

(** ** Exceptions and results *)

Inductive exn :=
| KeyError (key : string)
| ZeroDivisionError
| RuntimeError (msg : string)
| ValueError (msg : string).

Inductive res (A : Type) :=
| Ok (a : A)
| Raise (e : exn).
Arguments Ok {A} a.
Arguments Raise {A} e.

#[global] Instance res_ret : MRet res := λ A a, Ok a.
#[global] Instance res_bind : MBind res := λ A B f r,
  match r with Ok a => f a | Raise e => Raise e end.

(** A list comprehension whose element expression may raise. *)
Fixpoint mapR {A B : Type} (f : A → res B) (l : list A) : res (list B) :=
  match l with
  | [] => Ok []
  | x :: l' => y ← f x; ys ← mapR f l'; mret (y :: ys)
  end.

(** A left fold whose step may raise. *)
Fixpoint foldlR {A B : Type} (f : B → A → res B) (b : B) (l : list A) : res B :=
  match l with
  | [] => Ok b
  | x :: l' => b' ← f b x; foldlR f b' l'
  end.

(** What a run leaves in the trace: a library call that returned, a
    library call that raised, an arithmetic operator written in the
    script itself. *)
Inductive event :=
| Call (lib : string)
| Failed (lib : string) (e : exn)
| Arith (op : string).


Definition is_failed (ev : event) : bool :=
  match ev with Failed _ _ => true | _ => false end.

(** ** Scalars and tensors *)

Class Scalar (T : Type) := {
  fzero : T;
  fone : T;
  fadd : T → T → T;
  fmul : T → T → T;
  fneg : T → T;
  fdiv : T → T → T;
  fsqrt_int : nat → T;          (* math.sqrt of an int *)
  fis_zero : T → bool;          (* x == 0.0, which is also "not x" *)
  fle : T → T → Prop;
  fis_zero_fzero : fis_zero fzero = true
}.

(** Addresses of tensor objects. *)
Abbreviation loc := nat (only parsing).

Section Tensors.
Context {T : Type} `{Scalar T}.

(** A tensor that keeps its shape even when it has no rows
    (torch.Tensor(in_feats, out_feats)). *)
Record tensor2 := Tensor2 { t_size0 : nat; t_size1 : nat; t_rows : list (list T) }.

Definition zeros (n : nat) : list T := replicate n fzero.

Definition feat_width (a : list (list T)) : nat := length (hd [] a).

(** Broadcasting of a binary operator over one-dimensional tensors:
    equal sizes, or one of them of size 1. *)
Definition vbroadcast (op : T → T → T) (x y : list T) : res (list T) :=
  if decide (length x = length y) then Ok (zip_with op x y)
  else if decide (length y = 1) then Ok (map (λ a, op a (hd fzero y)) x)
  else if decide (length x = 1) then Ok (map (λ b, op (hd fzero x) b) y)
  else Raise (RuntimeError "size mismatch").

Fixpoint zipM (f : list T → list T → res (list T)) (a b : list (list T))
  : res (list (list T)) :=
  match a, b with
  | x :: a', y :: b' => r ← f x y; rs ← zipM f a' b'; mret (r :: rs)
  | _, _ => mret []
  end.

(** The same over two-dimensional tensors, a list of rows (a tensor
    without rows has no width to compare). *)
Definition tbroadcast (op : T → T → T) (a b : list (list T)) : res (list (list T)) :=
  if decide (length a = length b) then zipM (vbroadcast op) a b
  else if decide (length b = 1) then mapR (λ r, vbroadcast op r (hd [] b)) a
  else if decide (length a = 1) then mapR (λ r, vbroadcast op (hd [] a) r) b
  else Raise (RuntimeError "size mismatch").

Definition vmul : list T → list T → res (list T) := vbroadcast fmul.
Definition vadd (x y : list T) : list T := zip_with fadd x y.
Definition tmul : list (list T) → list (list T) → res (list (list T)) := tbroadcast fmul.
(** h + bias, bias one-dimensional: it is broadcast as a single row. *)
Definition tadd_bias (h : list (list T)) (b : list T) : res (list (list T)) :=
  tbroadcast fadd h [b].

(** What Python's sum(xs) is for a list of one-dimensional tensors: the
    int 0 when the list is empty, and 0 + x1 + ... + xn otherwise. *)
Inductive summed := Int0 | Vec (x : list T).

Definition sum_step (acc : summed) (x : list T) : res summed :=
  match acc with
  | Int0 => Ok (Vec (map (fadd fzero) x))
  | Vec a => r ← vbroadcast fadd a x; mret (Vec r)
  end.

Definition py_sum (xs : list (list T)) : res summed := foldlR sum_step Int0 xs.

(** h * n where h is the value of a sum: 0 * n has the shape of n. *)
Definition mul_summed (h : summed) (n : list T) : res (list T) :=
  match h with
  | Int0 => Ok (map (fmul fzero) n)
  | Vec a => vmul a n
  end.

(** Row-major view of [n] entries as [r] rows of [c]. *)
Fixpoint reshape (r c : nat) (xs : list T) : list (list T) :=
  match r with
  | 0 => []
  | S r' => take c xs :: reshape r' c (drop c xs)
  end.
End Tensors.

(** ** Graph structure *)

(** The topology of the graph object [g]: nodes [0 .. num_nodes-1] and
    directed edges (source, destination), in edge-id order. *)
Record graph := Graph { num_nodes : nat; edges : list (nat * nat) }.

(** v.innbs: the sources of the edges that enter [v], one per edge. *)
Definition innbs (g : graph) (v : nat) : list nat :=
  (filter (λ e, e.2 = v) (edges g)).*1.

(** ** The world and the monad of the methods *)

(** The tensor library, as far as the script calls it. [R] is the state
    of its random generator. *)
Class Extern (T R : Type) := {
  (* torch.mm(a, b) *)
  torch_mm : list (list T) → list (list T) → res (list (list T));
  (* nn.Dropout(p=p): the constructor may reject p *)
  nn_Dropout_init : T → res unit;
  (* calling the module nn.Dropout(p=p) on h *)
  nn_Dropout_call : T → list (list T) → R → res (list (list T)) * R;
  (* t.uniform_(lo, hi) on a tensor of n entries: the entries it writes *)
  uniform_ : T → T → nat → R → res (list T) * R
}.

Section World.
Context {T R : Type} `{Scalar T} `{Extern T R}.

Record world := World {
  heap : list (list (list T));      (* tensor objects, by address *)
  ndata : gmap string loc;          (* g.ndata: key -> tensor object *)
  rng : R;                          (* state of the random generator *)
  trace : list event
}.

Definition M (A : Type) : Type := world → res A * world.

#[global] Instance M_ret : MRet M := λ A a w, (Ok a, w).
#[global] Instance M_bind : MBind M := λ A B f m w,
  match m w with
  | (Ok a, w') => f a w'
  | (Raise e, w') => (Raise e, w')
  end.

Definition lift {A} (r : res A) : M A := λ w, (r, w).

(** An exception raised by the interpreter while it runs the script's
    own code (no library involved). *)
Definition raise_py {A} (e : exn) : M A := λ w, (Raise e, w).

Definition log (ev : event) (w : world) : world :=
  World (heap w) (ndata w) (rng w) (trace w ++ [ev]).

Definition tick (ev : event) : M unit := λ w, (Ok (), log ev w).

(** A call into a library: it returns or raises, and the trace says which. *)
Definition call {A} (lib : string) (m : M A) : M A := λ w,
  match m w with
  | (Ok a, w') => (Ok a, log (Call lib) w')
  | (Raise e, w') => (Raise e, log (Failed lib e) w')
  end.

(** An arithmetic operator the script applies to tensors; the tensor
    library evaluates it and may reject the shapes. *)
Definition arith {A} (op : string) (r : res A) : M A := λ w,
  match r with
  | Ok a => (Ok a, log (Arith op) w)
  | Raise e => (Raise e, log (Failed op e) w)
  end.

(** *** Heap and node-data store *)

Definition alloc (t : list (list T)) (w : world) : loc * world :=
  (length (heap w), World (heap w ++ [t]) (ndata w) (rng w) (trace w)).

Definition deref (l : loc) : M (list (list T)) := λ w, (Ok (heap w !!! l), w).

Definition bind_key (k : string) (l : loc) (w : world) : world :=
  World (heap w) (<[k := l]> (ndata w)) (rng w) (trace w).

Definition unbind_key (k : string) (w : world) : world :=
  World (heap w) (delete k (ndata w)) (rng w) (trace w).

Definition lookup_key (k : string) : M loc := λ w,
  match ndata w !! k with
  | Some l => (Ok l, w)
  | None => (Raise (KeyError k), w)
  end.

(** g.ndata[k]: the tensor object bound to [k]. *)
Definition ndata_getitem (k : string) : M loc :=
  call "ndata.__getitem__" (lookup_key k).

(** g.ndata[k] = t: [t] becomes an object of the store. *)
Definition store_key (k : string) (t : list (list T)) : M unit := λ w,
  let '(l, w') := alloc t w in (Ok (), bind_key k l w').

Definition ndata_setitem (k : string) (t : list (list T)) : M unit :=
  call "ndata.__setitem__" (store_key k t).

(** g.ndata.pop(k) *)
Definition remove_key (k : string) : M (list (list T)) := λ w,
  match ndata w !! k with
  | Some l => (Ok (heap w !!! l), unbind_key k w)
  | None => (Raise (KeyError k), w)
  end.

Definition ndata_pop (k : string) : M (list (list T)) :=
  call "ndata.pop" (remove_key k).
End World.

Arguments world T R : clear implicits.
Arguments M T R A : clear implicits.

(** ** Message passing *)

Section MessagePassing.
Context {T R : Type} `{Scalar T} `{Extern T R}.

(** Modelled from the spec: the graph library's message functions are not
    part of the file. fn.copy_src(src='h', out='m'): the message an edge
    sends to its destination is the feature of its source. *)
Definition copy_src (h : list (list T)) (e : nat * nat) : nat * list T :=
  (e.2, h !!! e.1).

(** Modelled from the spec: the messages a node has received, in the
    order they were sent. *)
Definition mailbox (msgs : list (nat * list T)) (v : nat) : list (list T) :=
  (filter (λ m, m.1 = v) msgs).*2.

(** Modelled from the spec: fn.sum(msg='m', out='h'), the reduction of a
    mailbox by sum; the sum of no message is the zero vector. *)
Definition reduce_sum (width : nat) (mb : list (list T)) : list T :=
  foldl vadd (zeros width) mb.

(** Modelled from the spec: message passing, "each graph node's updated
    feature is computed as a reduction (e.g., sum) over messages sent
    from neighboring nodes". *)
Definition message_passing (g : graph) (h : list (list T)) : list (list T) :=
  let msgs := copy_src h <$> edges g in
  (λ v, reduce_sum (feat_width h) (mailbox msgs v)) <$> seq 0 (num_nodes g).

(** Modelled from the spec: read the field [src] of the nodes, pass the
    messages, write the field [out]. *)
Definition send_and_recv (g : graph) (src out : string) : M T R unit :=
  l ← lookup_key src;
  h ← deref l;
  store_key out (message_passing g h).

(** Modelled from the spec:
    g.update_all(fn.copy_src(src=src, out='m'), fn.sum(msg='m', out=out)) *)
Definition update_all (g : graph) (src out : string) : M T R unit :=
  call "update_all" (send_and_recv g src out).


(** *** The accelerator's context manager *)

(** Modelled from the spec: the vertex [v] that the context manager
    hands to the with-block, as far as the block reads it: nb.h and
    nb.norm for each nb in v.innbs, and v.norm. *)
Record vertex := Vertex {
  v_innbs : list (list T * list T);
  v_norm : list T
}.

(** for x in l: f(x), with the results collected; the first exception
    ends the loop. *)
Fixpoint forM {A B : Type} (f : A → M T R B) (l : list A) : M T R (list B) :=
  match l with
  | [] => mret []
  | x :: l' => y ← f x; ys ← forM f l'; mret (y :: ys)
  end.

(** Modelled from the spec: the vertex that stands for node [v] of the
    graph when the node features are 'h' and 'norm': v.innbs are the
    sources of the edges that enter [v], one per edge. A node beyond the
    rows of a feature has the empty row of it. *)
Definition vertex_at (g : graph) (h norm : list (list T)) (v : nat) : vertex :=
  Vertex ((λ u, (h !!! u, norm !!! u)) <$> innbs g v) (norm !!! v).

(** Modelled from the spec: the accelerator context manager, "a scoped
    construct used here to delegate neighborhood aggregation to an
    external execution backend". The with-block is a program for one
    vertex; it is run at every node of the graph, in node order, and
    zoomOut returns the rows that collect_output was given. *)
Definition zoom (block : vertex → M T R (list T)) (g : graph) (h norm : list (list T))
    : M T R (list (list T)) :=
  forM (λ v, block (vertex_at g h norm v)) (seq 0 (num_nodes g)).
End MessagePassing.

(** ** The layers *)

(** self.dropout: the float 0. or a dropout module. *)
Inductive dropout_attr (T : Type) :=
| Dropout_off
| Dropout_module (p : T).
Arguments Dropout_off {T}.
Arguments Dropout_module {T} p.

Section Common.
Context {T R : Type} `{Scalar T} `{Extern T R}.

Definition sample (lo hi : T) (n : nat) : M T R (list T) := λ w,
  let '(r, s) := uniform_ lo hi n (rng w) in
  (r, World (heap w) (ndata w) s (trace w)).

Definition run_dropout (p : T) (h : list (list T)) : M T R (list (list T)) := λ w,
  let '(r, s) := nn_Dropout_call p h (rng w) in
  (r, World (heap w) (ndata w) s (trace w)).

(** nn.Parameter(torch.Tensor(r, c)): storage that nobody has written yet. *)
Definition new_param2 (r c : nat) : M T R (@tensor2 T) :=
  call "torch.Tensor" (mret (Tensor2 r c (reshape r c (zeros (r * c))))).

Definition new_param1 (c : nat) : M T R (list T) :=
  call "torch.Tensor" (mret (zeros c)).

(** if dropout: nn.Dropout(p=dropout) else: 0. *)
Definition make_dropout (dropout : T) : M T R (dropout_attr T) :=
  if fis_zero dropout then mret Dropout_off
  else call "nn.Dropout" (lift (nn_Dropout_init dropout));; mret (Dropout_module dropout).

(** stdv = 1. / math.sqrt(size1) *)
Definition stdv_of (size1 : nat) : M T R T :=
  s ← call "math.sqrt" (mret (fsqrt_int size1));
  if fis_zero s then raise_py ZeroDivisionError
  else tick (Arith "truediv");; mret (fdiv fone s).

(** t.data.uniform_(-stdv, stdv) *)
Definition fill_uniform (stdv : T) (n : nat) : M T R (list T) :=
  tick (Arith "neg");;
  call "uniform_" (sample (fneg stdv) stdv n).

Definition apply_dropout (d : dropout_attr T) (h : list (list T)) : M T R (list (list T)) :=
  match d with
  | Dropout_module p => call "nn.Dropout.forward" (run_dropout p h)
  | Dropout_off => mret h
  end.

Definition add_bias (b : option (list T)) (h : list (list T)) : M T R (list (list T)) :=
  match b with
  | Some b => arith "add" (tadd_bias h b)
  | None => mret h
  end.

(** self.activation(h): any callable; it gets h and, like every other
    call, the random generator. *)
Definition run_activation (f : list (list T) → R → res (list (list T)) * R)
    (h : list (list T)) : M T R (list (list T)) := λ w,
  let '(r, s) := f h (rng w) in
  (r, World (heap w) (ndata w) s (trace w)).

Definition apply_activation (a : option (list (list T) → R → res (list (list T)) * R))
    (h : list (list T)) : M T R (list (list T)) :=
  match a with
  | Some f => call "activation" (run_activation f h)
  | None => mret h
  end.
End Common.

Module GCNLayer.
Section Defs.
Context {T R : Type} `{Scalar T} `{Extern T R}.

Record t := Build {
  g : graph;
  weight : @tensor2 T;
  bias : option (list T);
  activation : option (list (list T) → R → res (list (list T)) * R);
  dropout : dropout_attr T
}.

Definition reset_parameters (self : t) : M T R t :=
  stdv ← stdv_of (t_size1 (weight self));
  let '(Tensor2 r c _) := weight self in
  wd ← fill_uniform stdv (r * c);
  let self := Build (g self) (Tensor2 r c (reshape r c wd)) (bias self)
                    (activation self) (dropout self) in
  match bias self with
  | Some b =>
      bd ← fill_uniform stdv (length b);
      mret (Build (g self) (weight self) (Some bd) (activation self) (dropout self))
  | None => mret self
  end.

Definition init (g : graph) (in_feats out_feats : nat)
    (activation : option (list (list T) → R → res (list (list T)) * R))
    (dropout : T) (bias : bool) : M T R t :=
  weight ← new_param2 in_feats out_feats;
  b ← (if bias then v ← new_param1 out_feats; mret (Some v) else mret None);
  d ← make_dropout dropout;
  reset_parameters (Build g weight b activation d).

Definition forward (self : t) (h : list (list T)) : M T R (list (list T)) :=
  h ← apply_dropout (dropout self) h;
  h ← call "torch.mm" (lift (torch_mm h (t_rows (weight self))));
  (* normalization by square root of src degree *)
  norm ← ndata_getitem "norm";
  norm ← deref norm;
  h ← arith "mul" (tmul h norm);
  ndata_setitem "h" h;;
  update_all (g self) "h" "h";;
  h ← ndata_pop "h";
  (* normalization by square root of dst degree *)
  norm ← ndata_getitem "norm";
  norm ← deref norm;
  h ← arith "mul" (tmul h norm);
  (* bias *)
  h ← add_bias (bias self) h;
  apply_activation (activation self) h.
End Defs.
Arguments t T R : clear implicits.
End GCNLayer.

Module EglGCNLayer.
Section Defs.
Context {T R : Type} `{Scalar T} `{Extern T R}.

Record t := Build {
  g : graph;
  norm : loc;                (* the object g.ndata['norm'] was bound to *)
  weight : @tensor2 T;
  bias : option (list T);
  activation : option (list (list T) → R → res (list (list T)) * R);
  dropout : dropout_attr T
}.

Definition reset_parameters (self : t) : M T R t :=
  stdv ← stdv_of (t_size1 (weight self));
  let '(Tensor2 r c _) := weight self in
  wd ← fill_uniform stdv (r * c);
  let self := Build (g self) (norm self) (Tensor2 r c (reshape r c wd)) (bias self)
                    (activation self) (dropout self) in
  match bias self with
  | Some b =>
      bd ← fill_uniform stdv (length b);
      mret (Build (g self) (norm self) (weight self) (Some bd)
                  (activation self) (dropout self))
  | None => mret self
  end.

Definition init (g : graph) (in_feats out_feats : nat)
    (activation : option (list (list T) → R → res (list (list T)) * R))
    (dropout : T) (bias : bool) : M T R t :=
  norm ← ndata_getitem "norm";
  weight ← new_param2 in_feats out_feats;
  b ← (if bias then v ← new_param1 out_feats; mret (Some v) else mret None);
  d ← make_dropout dropout;
  self ← reset_parameters (Build g norm weight b activation d);
  call "ContextManager" (mret ());;
  mret self.

(** The with-block, on the vertex [v] the context manager hands out:
      h = sum([nb.h*nb.norm for nb in v.innbs])
      h = h * v.norm
      v.collect_output(h) *)
Definition with_block (v : vertex) : M T R (list T) :=
  msgs ← forM (λ nb, arith "mul" (vmul nb.1 nb.2)) (v_innbs v);
  h ← call "sum" (lift (py_sum msgs));
  h ← arith "mul" (mul_summed h (v_norm v));
  call "collect_output" (mret h).

Definition forward (self : t) (h : list (list T)) : M T R (list (list T)) :=
  h ← apply_dropout (dropout self) h;
  call "dgl.utils.to_dgl_context" (mret ());;
  graph ← call "get_immutable_gidx" (mret (g self));
  h ← call "torch.mm" (lift (torch_mm h (t_rows (weight self))));
  (* node_feats={'h':h, 'norm':self.norm} *)
  norm ← deref (norm self);
  call "ContextManager.zoomIn" (mret ());;
  rows ← zoom with_block graph h norm;
  h ← call "ContextManager.zoomOut" (mret rows);
  (* bias *)
  h ← add_bias (bias self) h;
  apply_activation (activation self) h.
End Defs.
Arguments t T R : clear implicits.
End EglGCNLayer.

Module GCN.
Section Defs.
Context {T R : Type} `{Scalar T} `{Extern T R}.

Record t := Build { layers : list (GCNLayer.t T R) }.

(** for i in range(n): layers.append(<a new layer>) *)
Fixpoint append_layers (n : nat) (mk : M T R (GCNLayer.t T R))
    (layers : list (GCNLayer.t T R)) : M T R (list (GCNLayer.t T R)) :=
  match n with
  | 0 => mret layers
  | S n' => l ← mk; append_layers n' mk (layers ++ [l])
  end.

Definition init (g : graph) (in_feats n_hidden n_classes : nat) (n_layers : Z)
    (activation : option (list (list T) → R → res (list (list T)) * R))
    (dropout : T) : M T R t :=
  let layers := [] in
  (* input layer *)
  l ← GCNLayer.init g in_feats n_hidden activation fzero true;
  let layers := layers ++ [l] in
  (* hidden layers *)
  layers ← append_layers (Z.to_nat (n_layers - 1))
             (GCNLayer.init g n_hidden n_hidden activation dropout true) layers;
  (* output layer *)
  l ← GCNLayer.init g n_hidden n_classes None dropout true;
  mret (Build (layers ++ [l])).

(** for layer in layers: h = layer(h) *)
Fixpoint forward_loop (layers : list (GCNLayer.t T R)) (h : list (list T))
    : M T R (list (list T)) :=
  match layers with
  | [] => mret h
  | layer :: rest => h ← GCNLayer.forward layer h; forward_loop rest h
  end.

Definition forward (self : t) (features : list (list T)) : M T R (list (list T)) :=
  forward_loop (layers self) features.
End Defs.
Arguments t T R : clear implicits.
End GCN.

Module EglGCN.
Section Defs.
Context {T R : Type} `{Scalar T} `{Extern T R}.

Record t := Build { g : graph; layers : list (EglGCNLayer.t T R) }.

Fixpoint append_layers (n : nat) (mk : M T R (EglGCNLayer.t T R))
    (layers : list (EglGCNLayer.t T R)) : M T R (list (EglGCNLayer.t T R)) :=
  match n with
  | 0 => mret layers
  | S n' => l ← mk; append_layers n' mk (layers ++ [l])
  end.

Definition init (g : graph) (in_feats n_hidden n_classes : nat) (n_layers : Z)
    (activation : option (list (list T) → R → res (list (list T)) * R))
    (dropout : T) : M T R t :=
  let layers := [] in
  (* input layer *)
  l ← EglGCNLayer.init g in_feats n_hidden activation fzero true;
  let layers := layers ++ [l] in
  (* hidden layers *)
  layers ← append_layers (Z.to_nat (n_layers - 1))
             (EglGCNLayer.init g n_hidden n_hidden activation dropout true) layers;
  (* output layer *)
  l ← EglGCNLayer.init g n_hidden n_classes None dropout true;
  mret (Build g (layers ++ [l])).

Fixpoint forward_loop (layers : list (EglGCNLayer.t T R)) (h : list (list T))
    : M T R (list (list T)) :=
  match layers with
  | [] => mret h
  | layer :: rest => h ← EglGCNLayer.forward layer h; forward_loop rest h
  end.

Definition forward (self : t) (features : list (list T)) : M T R (list (list T)) :=
  forward_loop (layers self) features.
End Defs.
Arguments t T R : clear implicits.
End EglGCN.

(** ** The vocabulary of the statements *)

Section Statements.
Context {T R : Type} `{Scalar T} `{Extern T R}.

Definition with_rng (s : R) (w : world T R) : world T R :=
  World (heap w) (ndata w) s (trace w).

Definition logs (evs : list event) (w : world T R) : world T R :=
  World (heap w) (ndata w) (rng w) (trace w ++ evs).

(** The events a run added to the trace. *)
Definition new_events (w w' : world T R) : list event :=
  drop (length (trace w)) (trace w').

(** The stages of a forward pass as functions of tensors. *)
Definition dropout_stage (d : dropout_attr T) (h : list (list T)) (s : R)
    : res (list (list T)) * R :=
  match d with
  | Dropout_module p => nn_Dropout_call p h s
  | Dropout_off => (Ok h, s)
  end.

Definition bias_stage (b : option (list T)) (h : list (list T)) : res (list (list T)) :=
  match b with Some b => tadd_bias h b | None => Ok h end.

Definition activation_stage (a : option (list (list T) → R → res (list (list T)) * R))
    (h : list (list T)) (s : R) : res (list (list T)) * R :=
  match a with Some f => f h s | None => (Ok h, s) end.

(** The composition GCNLayer.forward is said to compute: dropout, dense
    projection, times norm, message-passing sum, times norm, plus bias,
    activation. [norm] is the tensor g.ndata['norm'] and [s] the state of
    the random generator when the call starts. *)
Definition gcn_composition (self : GCNLayer.t T R) (norm : list (list T))
    (h : list (list T)) (s : R) : res (list (list T)) :=
  let '(r, s) := dropout_stage (GCNLayer.dropout self) h s in
  h ← r;
  h ← torch_mm h (t_rows (GCNLayer.weight self));
  h ← tmul h norm;
  h ← tmul (message_passing (GCNLayer.g self) h) norm;
  h ← bias_stage (GCNLayer.bias self) h;
  (activation_stage (GCNLayer.activation self) h s).1.

(** What the with-block gives to collect_output, as a function of the
    vertex. *)
Definition vertex_program (v : @vertex T) : res (list T) :=
  msgs ← mapR (λ nb, vmul nb.1 nb.2) (v_innbs v);
  h ← py_sum msgs;
  mul_summed h (v_norm v).

(** The rows zoomOut returns. *)
Definition egl_aggregation (g : graph) (h norm : list (list T)) : res (list (list T)) :=
  mapR (λ v, vertex_program (vertex_at g h norm v)) (seq 0 (num_nodes g)).

(** The same for EglGCNLayer.forward, where the aggregation is the
    with-block run by the context manager. *)
Definition egl_composition (self : EglGCNLayer.t T R) (norm : list (list T))
    (h : list (list T)) (s : R) : res (list (list T)) :=
  let '(r, s) := dropout_stage (EglGCNLayer.dropout self) h s in
  h ← r;
  h ← torch_mm h (t_rows (EglGCNLayer.weight self));
  h ← egl_aggregation (EglGCNLayer.g self) h norm;
  h ← bias_stage (EglGCNLayer.bias self) h;
  (activation_stage (EglGCNLayer.activation self) h s).1.

(** GCNLayer.forward from torch.mm on, and EglGCNLayer.forward from
    to_dgl_context on: what is left once dropout is through. *)
Definition gcn_after_dropout (self : GCNLayer.t T R) (h : list (list T))
    : M T R (list (list T)) :=
  h ← call "torch.mm" (lift (torch_mm h (t_rows (GCNLayer.weight self))));
  norm ← ndata_getitem "norm";
  norm ← deref norm;
  h ← arith "mul" (tmul h norm);
  ndata_setitem "h" h;;
  update_all (GCNLayer.g self) "h" "h";;
  h ← ndata_pop "h";
  norm ← ndata_getitem "norm";
  norm ← deref norm;
  h ← arith "mul" (tmul h norm);
  h ← add_bias (GCNLayer.bias self) h;
  apply_activation (GCNLayer.activation self) h.

Definition egl_after_dropout (self : EglGCNLayer.t T R) (h : list (list T))
    : M T R (list (list T)) :=
  call "dgl.utils.to_dgl_context" (mret ());;
  graph ← call "get_immutable_gidx" (mret (EglGCNLayer.g self));
  h ← call "torch.mm" (lift (torch_mm h (t_rows (EglGCNLayer.weight self))));
  norm ← deref (EglGCNLayer.norm self);
  call "ContextManager.zoomIn" (mret ());;
  rows ← zoom EglGCNLayer.with_block graph h norm;
  h ← call "ContextManager.zoomOut" (mret rows);
  h ← add_bias (EglGCNLayer.bias self) h;
  apply_activation (EglGCNLayer.activation self) h.

(** Trace of a forward pass that returns. *)
Definition dropout_events (d : dropout_attr T) : list event :=
  match d with
  | Dropout_off => []
  | Dropout_module _ => [Call "nn.Dropout.forward"]
  end.

Definition bias_events (b : option (list T)) : list event :=
  match b with Some _ => [Arith "add"] | None => [] end.

Definition activation_events (a : option (list (list T) → R → res (list (list T)) * R))
    : list event :=
  match a with Some _ => [Call "activation"] | None => [] end.

Definition gcn_forward_events (self : GCNLayer.t T R) : list event :=
  dropout_events (GCNLayer.dropout self)
  ++ [Call "torch.mm"; Call "ndata.__getitem__"; Arith "mul";
      Call "ndata.__setitem__"; Call "update_all"; Call "ndata.pop";
      Call "ndata.__getitem__"; Arith "mul"]
  ++ bias_events (GCNLayer.bias self)
  ++ activation_events (GCNLayer.activation self).

(** One run of the with-block that returns, on a vertex with [k]
    in-neighbours: a product for each, the sum, the product by v.norm,
    collect_output. *)
Definition block_events (k : nat) : list event :=
  replicate k (Arith "mul") ++ [Call "sum"; Arith "mul"; Call "collect_output"].

(** The runs of the with-block on the nodes of [g], in node order. *)
Definition zoom_events (g : graph) : list event :=
  concat ((λ v, block_events (length (innbs g v))) <$> seq 0 (num_nodes g)).








(** |x| <= stdv, entry by entry. *)
Definition within (stdv : T) (x : T) : Prop := fle (fneg stdv) x ∧ fle x stdv.

(** What the sampler promises: what it returns lies between its bounds. *)
Definition uniform_in_bounds : Prop :=
  ∀ lo hi n s xs s', uniform_ lo hi n s = (Ok xs, s') →
    Forall (λ x, fle lo x ∧ fle x hi) xs.

(** self.dropout after a constructor was given [dropout]. *)
Definition dropout_of (dropout : T) : dropout_attr T :=
  if fis_zero dropout then Dropout_off else Dropout_module dropout.

(** How a run may end, read off the events it added: it returned and no
    library call in it failed; or it raised [e] and the last thing that
    happened is a library call failing with [e], the first failure of
    the run; or it raised an exception [e] of the script's own ([own e])
    and no library call failed. *)
Definition clean (evs : list event) : Prop := Forall (λ ev, is_failed ev = false) evs.

Inductive outcome (own : exn → Prop) {A : Type} : res A → list event → Prop :=
| outcome_ok a evs : clean evs → outcome own (Ok a) evs
| outcome_lib e lib evs : clean evs → outcome own (Raise e) (evs ++ [Failed lib e])
| outcome_own e evs : own e → clean evs → outcome own (Raise e) evs.

Definition disciplined (own : exn → Prop) {A : Type} (m : M T R A) : Prop :=
  ∀ w, ∃ evs, trace (m w).2 = trace w ++ evs ∧ outcome own (m w).1 evs.

Definition no_own_exception (e : exn) : Prop := False.

(** 1. / math.sqrt(n) divides by zero for one of the sizes [ns]. *)
Definition zero_division_at (ns : list nat) (e : exn) : Prop :=
  e = ZeroDivisionError ∧ ∃ n, n ∈ ns ∧ fis_zero (fsqrt_int n) = true.

(** A computation that writes nothing to the trace. *)
Definition silent {A : Type} (m : M T R A) : Prop :=
  ∀ w, trace (m w).2 = trace w.

(** Changes of g.ndata['norm'] made by the surrounding program:
    [ndata_setitem "norm" t] binds the key to another tensor;
    [write_in_place "norm" t] overwrites the tensor object the key is
    bound to (g.ndata['norm'][...] = ..., g.ndata['norm'].mul_(c)). *)
Definition overwrite (l : loc) (t : list (list T)) (w : world T R) : world T R :=
  World (<[l := t]> (heap w)) (ndata w) (rng w) (trace w).

Definition write_in_place (k : string) (t : list (list T)) : M T R unit := λ w,
  match ndata w !! k with
  | Some l => (Ok (), overwrite l t w)
  | None => (Raise (KeyError k), w)
  end.

(** A layer that some run of a constructor returned. *)
Definition built {A : Type} (mk : M T R A) (l : A) : Prop :=
  ∃ w w', mk w = (Ok l, w').
End Statements.

(** ** Footprints of a computation *)

Section Footprints.
Context {T R : Type} `{Scalar T} `{Extern T R}.

(** A computation that leaves the heap and g.ndata as it found them,
    however it ends. *)
Definition keeps_store {A : Type} (m : M T R A) : Prop :=
  ∀ w, heap (m w).2 = heap w ∧ ndata (m w).2 = ndata w.

(** A computation whose result and use of the random generator do not
    depend on the heap or on g.ndata. *)
Definition store_blind {A : Type} (m : M T R A) : Prop :=
  ∀ w1 w2, rng w1 = rng w2 →
    (m w1).1 = (m w2).1 ∧ rng (m w1).2 = rng (m w2).2.

(** A computation whose result and use of the random generator depend on
    the heap only: g.ndata is not consulted. *)
Definition ndata_blind {A : Type} (m : M T R A) : Prop :=
  ∀ w1 w2, heap w1 = heap w2 → rng w1 = rng w2 →
    (m w1).1 = (m w2).1 ∧ rng (m w1).2 = rng (m w2).2.

(** A computation that neither reads nor advances the random generator. *)
Definition rng_blind {A : Type} (m : M T R A) : Prop :=
  ∀ w s, m (with_rng s w) = ((m w).1, with_rng s (m w).2).

(** A computation that does not consult g.ndata and leaves the heap
    alone: from equal heaps and random states it ends the same way, with
    the same random state. *)
Definition ndata_free {A : Type} (m : M T R A) : Prop :=
  ∀ w1 w2, heap w1 = heap w2 → rng w1 = rng w2 →
    (m w1).1 = (m w2).1 ∧ rng (m w1).2 = rng (m w2).2
    ∧ heap (m w1).2 = heap w1 ∧ heap (m w2).2 = heap w2.

(** A computation that changes nothing of the world but the trace: it
    ends as [r], and a run that returns adds the events [evs]. *)
Definition traces {A : Type} (m : M T R A) (r : res A) (evs : list event) : Prop :=
  ∀ w, ∃ evs', m w = (r, logs evs' w) ∧ (∀ a, r = Ok a → evs' = evs).

(** An activation that draws no random number: what it returns does not
    depend on the random state, which it leaves as it is. *)
Definition draws_nothing (a : option (list (list T) → R → res (list (list T)) * R))
    : Prop :=
  match a with
  | Some f => ∀ h s s', (f h s).1 = (f h s').1 ∧ (f h s).2 = s
  | None => True
  end.

(** if dropout: nn.Dropout(p=dropout) else: 0., as a value. *)
Definition draw_dropout (dropout : T) : res (dropout_attr T) :=
  if fis_zero dropout then Ok Dropout_off
  else match nn_Dropout_init dropout with
       | Ok _ => Ok (Dropout_module dropout)
       | Raise e => Raise e
       end.

(** What a layer constructor makes of the random state [s]: the dropout
    attribute, then the weight, then the bias. *)
Definition draw_parameters (in_feats out_feats : nat) (dropout : T) (bias : bool) (s : R)
    : res (@tensor2 T * option (list T) * dropout_attr T) * R :=
  match draw_dropout dropout with
  | Raise e => (Raise e, s)
  | Ok d =>
      if fis_zero (fsqrt_int out_feats) then (Raise ZeroDivisionError, s)
      else
        let stdv := fdiv fone (fsqrt_int out_feats) in
        match uniform_ (fneg stdv) stdv (in_feats * out_feats) s with
        | (Raise e, s1) => (Raise e, s1)
        | (Ok wd, s1) =>
            let weight := Tensor2 in_feats out_feats (reshape in_feats out_feats wd) in
            if bias then
              match uniform_ (fneg stdv) stdv out_feats s1 with
              | (Raise e, s2) => (Raise e, s2)
              | (Ok bd, s2) => (Ok (weight, Some bd, d), s2)
              end
            else (Ok (weight, None, d), s1)
        end
  end.
End Footprints.

(** ** A concrete tensor library, to run the model

    Rational entries; a random generator that is a counter; a sampler
    that returns the lower bound (and rejects an empty range); dropout
    that zeroes the first row when the counter is odd. The square root
    is the one of the integers: it is math.sqrt on the perfect squares,
    and the runs below take it on 0, 1 and 4 only. *)
Module Demo.

Definition qadd (x y : Q) : Q := Qred (x + y).
Definition qmul (x y : Q) : Q := Qred (x * y).
Definition qdiv (x y : Q) : Q := Qred (x / y).
Definition qneg (x : Q) : Q := Qred (- x).
Definition qsqrt_int (n : nat) : Q := inject_Z (Z.sqrt (Z.of_nat n)).
Definition qis_zero (x : Q) : bool := Z.eqb (Qnum x) 0.

#[global] Instance Q_scalar : Scalar Q := {|
  fzero := 0%Q; fone := 1%Q;
  fadd := qadd; fmul := qmul; fneg := qneg; fdiv := qdiv;
  fsqrt_int := qsqrt_int; fis_zero := qis_zero;
  fle := Qle;
  fis_zero_fzero := eq_refl
|}.

Definition dot (x y : list Q) : Q := foldl qadd 0%Q (zip_with qmul x y).

Definition column (j : nat) (b : list (list Q)) : list Q := (λ r, nth j r 0%Q) <$> b.

Definition mm (a b : list (list Q)) : res (list (list Q)) :=
  if forallb (λ r, Nat.eqb (length r) (length b)) a
  then Ok ((λ r, (λ j, dot r (column j b)) <$> seq 0 (feat_width b)) <$> a)
  else Raise (RuntimeError "mm: size mismatch").

Definition dropout_init (p : Q) : res unit :=
  if Qle_bool 0 p && Qle_bool p 1 then Ok ()
  else Raise (ValueError "dropout probability has to be between 0 and 1").

Definition dropout_call (p : Q) (h : list (list Q)) (s : nat)
    : res (list (list Q)) * nat :=
  (Ok (if Nat.odd s then match h with r :: h' => zeros (length r) :: h' | [] => [] end
       else h), S s).

Definition uniform (lo hi : Q) (n : nat) (s : nat) : res (list Q) * nat :=
  if Qle_bool lo hi then (Ok (replicate n lo), s + n)
  else (Raise (RuntimeError "uniform_ expects from <= to"), s).

#[global] Instance Q_extern : Extern Q nat := {|
  torch_mm := mm;
  nn_Dropout_init := dropout_init;
  nn_Dropout_call := dropout_call;
  uniform_ := uniform
|}.

Definition relu (h : list (list Q)) (s : nat) : res (list (list Q)) * nat :=
  (Ok (map (map (λ x : Q, if Qle_bool x 0 then 0%Q else x)) h), s).

(** An activation that draws a random number and returns its argument. *)
Definition noisy (h : list (list Q)) (s : nat) : res (list (list Q)) * nat :=
  (Ok h, S s).

(** A path 0 -> 1 -> 2 with a second edge 0 -> 2; node 0 has no
    in-neighbour. *)
Definition g3 : graph := Graph 3 [(0, 1); (1, 2); (0, 2)].

Definition norm3 : list (list Q) := [[1%Q]; [2%Q]; [3%Q]].

Definition w0 : world Q nat := World [norm3] {["norm" := 0]} 0 [].

Definition layer3 : GCNLayer.t Q nat :=
  GCNLayer.Build g3 (Tensor2 2 2 [[1%Q; 0%Q]; [0%Q; 1%Q]]) (Some [10%Q; 20%Q])
                 None Dropout_off.

Definition egl_layer3 : EglGCNLayer.t Q nat :=
  EglGCNLayer.Build g3 0 (Tensor2 2 2 [[1%Q; 0%Q]; [0%Q; 1%Q]]) (Some [10%Q; 20%Q])
                    None Dropout_off.

Definition feats3 : list (list Q) := [[1%Q; 2%Q]; [3%Q; 4%Q]; [5%Q; 6%Q]].

(** What the two layers return on [feats3] in [w0]. *)
Definition out3 : list (list Q) := [[10%Q; 20%Q]; [12%Q; 24%Q]; [31%Q; 50%Q]].

(** Another value for 'norm'. *)
Definition norm3' : list (list Q) := [[2%Q]; [2%Q]; [3%Q]].

(** A world in which 'h' is bound, as it is when update_all is called. *)
Definition w_h : world Q nat := World [norm3; feats3] {["norm" := 0; "h" := 1]} 0 [].

(** GCNLayer(g3, 2, 4, None, 0.) as the sampler above leaves it. *)
Definition layer_2_4 : GCNLayer.t Q nat :=
  GCNLayer.Build g3
    (Tensor2 2 4 [[-1 # 2; -1 # 2; -1 # 2; -1 # 2]; [-1 # 2; -1 # 2; -1 # 2; -1 # 2]]%Q)
    (Some [-1 # 2; -1 # 2; -1 # 2; -1 # 2]%Q) None Dropout_off.

(** EglGCNLayer(g3, 2, 4, None, 0.) built in [w0]. *)
Definition egl_layer_2_4 : EglGCNLayer.t Q nat :=
  EglGCNLayer.Build g3 0
    (Tensor2 2 4 [[-1 # 2; -1 # 2; -1 # 2; -1 # 2]; [-1 # 2; -1 # 2; -1 # 2; -1 # 2]]%Q)
    (Some [-1 # 2; -1 # 2; -1 # 2; -1 # 2]%Q) None Dropout_off.








(** A layer whose activation draws a random number. *)
Definition layer3_noisy : GCNLayer.t Q nat :=
  GCNLayer.Build g3 (Tensor2 2 2 [[1%Q; 0%Q]; [0%Q; 1%Q]]) (Some [10%Q; 20%Q])
                 (Some noisy) Dropout_off.

(** A world whose graph has no node data at all. *)
Definition w_bare : world Q nat := World [] ∅ 0 [].

(** Two layers one after the other. *)
Definition gcn3 : GCN.t Q nat := GCN.Build [layer3; layer3].

End Demo.


(** * Proofs *)

(** ** Running the monad *)

Section Running.
Context {T R : Type} `{Scalar T} `{Extern T R}.

Lemma bind_run {A B} (m : M T R A) (k : A → M T R B) w :
  (m ≫= k) w =
  match m w with
  | (Ok a, w') => k a w'
  | (Raise e, w') => (Raise e, w')
  end.
Proof. reflexivity. Qed.

Lemma apply_dropout_run d h (w : world T R) :
  apply_dropout d h w =
  ((dropout_stage d h (rng w)).1,
   logs (match (dropout_stage d h (rng w)).1 with
         | Ok _ => dropout_events d
         | Raise e => [Failed "nn.Dropout.forward" e]
         end)
        (with_rng (dropout_stage d h (rng w)).2 w)).
Proof.
  destruct w as [hp nd s tr]. unfold logs, with_rng, apply_dropout.
  destruct d as [|p]; simpl.
  - unfold mret, M_ret. by rewrite app_nil_r.
  - unfold call, run_dropout, log. simpl.
    by destruct (nn_Dropout_call p h s) as [[h0|e] s'].
Qed.

Lemma GCNLayer_forward_unfold self h :
  GCNLayer.forward self h =
  apply_dropout (GCNLayer.dropout self) h ≫= gcn_after_dropout self.
Proof. reflexivity. Qed.

Lemma EglGCNLayer_forward_unfold self h :
  EglGCNLayer.forward self h =
  apply_dropout (EglGCNLayer.dropout self) h ≫= egl_after_dropout self.
Proof. reflexivity. Qed.
End Running.

Ltac munfold :=
  unfold gcn_after_dropout, egl_after_dropout, add_bias, apply_activation,
    ndata_getitem, ndata_setitem, ndata_pop, update_all, send_and_recv, store_key,
    lookup_key, remove_key, deref, alloc, bind_key, unbind_key, run_activation,
    call, arith, lift, tick, raise_py, log, mbind, mret, M_bind, M_ret in *.

(** Split a run on the outcome of each of its steps. *)
Ltac crunch :=
  repeat (simpl in *;
          match goal with
          | H : (Raise _, _) = (Ok _, _) |- _ => discriminate H
          | H : (Ok _, _) = (Raise _, _) |- _ => discriminate H
          | H : (_, _) = (_, _) |- _ => injection H as ? ?; subst
          | H : context [match ?x with _ => _ end] |- _ => destruct x eqn:?
          end).

Section ForwardRuns.
Context {T R : Type} `{Scalar T} `{Extern T R}.

Lemma gcn_after_dropout_result self h (w : world T R) l nrm :
  ndata w !! "norm" = Some l → heap w !! l = Some nrm →
  (gcn_after_dropout self h w).1 =
  (h ← torch_mm h (t_rows (GCNLayer.weight self));
   h ← tmul h nrm;
   h ← tmul (message_passing (GCNLayer.g self) h) nrm;
   h ← bias_stage (GCNLayer.bias self) h;
   (activation_stage (GCNLayer.activation self) h (rng w)).1).
Proof.
  intros Hk Hl.
  assert (Hn : heap w !!! l = nrm) by (by apply list_lookup_total_correct).
  pose proof (lookup_lt_Some _ _ _ Hl) as Hlt.
  unfold bias_stage, activation_stage. munfold. simpl.
  destruct (torch_mm _ _) as [h1|e]; simpl; [|done].
  rewrite Hk; simpl; rewrite Hn.
  destruct (tmul h1 nrm) as [m|e]; simpl; [|done].
  rewrite lookup_insert_eq; simpl.
  rewrite lookup_insert_eq; simpl.
  rewrite lookup_delete_ne by done; rewrite !lookup_insert_ne by done; rewrite Hk; simpl.
  rewrite !list_lookup_total_middle by done.
  rewrite !lookup_total_app_l by (rewrite ?length_app; simpl; lia). rewrite Hn.
  destruct (tmul _ nrm) as [o2|e]; simpl; [|done].
  destruct (GCNLayer.bias self) as [b|]; simpl;
      [destruct (tadd_bias o2 b) as [o3|e]; simpl; [|done]|];
    (destruct (GCNLayer.activation self) as [f|]; simpl; [|done]);
    by destruct (f _ _) as [[o4|e] s4].
Qed.

Lemma GCNLayer_forward_result self h (w : world T R) l nrm :
  ndata w !! "norm" = Some l → heap w !! l = Some nrm →
  (GCNLayer.forward self h w).1 = gcn_composition self nrm h (rng w).
Proof.
  intros Hk Hl. rewrite GCNLayer_forward_unfold, bind_run, apply_dropout_run.
  unfold gcn_composition.
  destruct (dropout_stage _ h (rng w)) as [[h0|e] s]; simpl; [|done].
  by rewrite gcn_after_dropout_result with (l := l) (nrm := nrm).
Qed.

Lemma gcn_after_dropout_effects self h (w : world T R) out w' :
  gcn_after_dropout self h w = (Ok out, w') →
  ∃ m1 m2,
    heap w' = heap w ++ [m1; m2] ∧ ndata w' = delete "h" (ndata w)
    ∧ trace w' = trace w
        ++ [Call "torch.mm"; Call "ndata.__getitem__"; Arith "mul";
            Call "ndata.__setitem__"; Call "update_all"; Call "ndata.pop";
            Call "ndata.__getitem__"; Arith "mul"]
        ++ bias_events (GCNLayer.bias self)
        ++ activation_events (GCNLayer.activation self).
Proof.
  intros Hrun. munfold. unfold bias_events, activation_events.
  crunch.
  all: eexists _, _; simpl; rewrite <- ?app_assoc; simpl;
    rewrite ?delete_insert_eq; repeat split; try done.
Qed.

(** Any run, returning or not: 'h' is the only key it may have touched. *)
Lemma gcn_after_dropout_store self h (w : world T R) :
  ndata (gcn_after_dropout self h w).2 = ndata w
  ∨ ndata (gcn_after_dropout self h w).2 = delete "h" (ndata w).
Proof.
  munfold. simpl.
  destruct (torch_mm _ _) as [h1|e]; simpl; [|by left].
  destruct (ndata w !! "norm") as [l|] eqn:Hk; simpl; [|by left].
  destruct (tmul h1 _) as [m|e]; simpl; [|by left].
  rewrite lookup_insert_eq; simpl.
  rewrite lookup_insert_eq; simpl.
  rewrite lookup_delete_ne by done; rewrite !lookup_insert_ne by done; rewrite Hk; simpl.
  right. rewrite <- (delete_insert_eq (ndata w) "h" (length (heap w))).
  rewrite <- (delete_insert_eq (<["h":=length (heap w)]> (ndata w)) "h"
                (length (heap w ++ [m]))).
  destruct (tmul _ _) as [o2|e]; simpl; [|done].
  destruct (GCNLayer.bias self) as [b|]; simpl;
      [destruct (tadd_bias o2 b) as [o3|e]; simpl; [|done]|];
    (destruct (GCNLayer.activation self) as [f|]; simpl; [|done]);
    by destruct (f _ _) as [[o4|e] s4].
Qed.

Lemma GCNLayer_forward_store self h (w : world T R) :
  ndata (GCNLayer.forward self h w).2 = ndata w
  ∨ ndata (GCNLayer.forward self h w).2 = delete "h" (ndata w).
Proof.
  rewrite GCNLayer_forward_unfold, bind_run, apply_dropout_run.
  destruct (dropout_stage _ h (rng w)) as [[h0|e] s]; simpl; [|by left].
  apply (gcn_after_dropout_store self h0 (logs _ (with_rng s w))).
Qed.
End ForwardRuns.

Section Effects.
Context {T R : Type} `{Scalar T} `{Extern T R}.

(** A forward pass that returns: where it leaves the world. *)
Lemma GCNLayer_forward_effects self h (w : world T R) out w' :
  GCNLayer.forward self h w = (Ok out, w') →
  ∃ m1 m2,
    heap w' = heap w ++ [m1; m2] ∧ ndata w' = delete "h" (ndata w)
    ∧ trace w' = trace w ++ gcn_forward_events self.
Proof.
  rewrite GCNLayer_forward_unfold, bind_run, apply_dropout_run.
  destruct (dropout_stage _ h (rng w)) as [[h0|e] s]; simpl; [|done].
  intros Hrun. apply gcn_after_dropout_effects in Hrun as (m1 & m2 & Hh & Hn & Ht).
  exists m1, m2. simpl in *. unfold gcn_forward_events.
  repeat split; [done..|]. rewrite Ht, <- !app_assoc. done.
Qed.

Lemma new_events_app (w w' : world T R) evs :
  trace w' = trace w ++ evs → new_events w w' = evs.
Proof. unfold new_events. intros ->. by rewrite drop_app_length. Qed.

End Effects.

(** ** Lists, broadcasting and message passing *)

Section Lists.
Context {A B C : Type}.



End Lists.

Section Pure.
Context {T : Type} `{Scalar T}.

Lemma mailbox_copy_src (h : list (list T)) (es : list (nat * nat)) v :
  mailbox (copy_src h <$> es) v = (λ u, h !!! u) <$> (filter (λ e, e.2 = v) es).*1.
Proof.
  unfold mailbox. induction es as [|[a b] es IH]; [done|].
  rewrite fmap_cons, !filter_cons. unfold copy_src at 1. cbn [fst snd].
  destruct (decide (b = v)); csimpl; by rewrite IH.
Qed.

Lemma message_passing_length g (h : list (list T)) :
  length (message_passing g h) = num_nodes g.
Proof. unfold message_passing. by rewrite length_fmap, length_seq. Qed.

Lemma message_passing_lookup g (h : list (list T)) v :
  v < num_nodes g →
  message_passing g h !! v
  = Some (reduce_sum (feat_width h) ((λ u, h !!! u) <$> innbs g v)).
Proof.
  intros Hv. unfold message_passing. rewrite list_lookup_fmap.
  rewrite lookup_seq_lt by done. simpl. by rewrite mailbox_copy_src.
Qed.




End Pure.

(** ** Python's sum and the built-in reduction *)

Section Sums.
Context {T : Type} `{Scalar T}.







End Sums.

(** ** Runs that change the trace only *)

Section Traces.
Context {T R : Type} `{Scalar T} `{Extern T R}.

Lemma logs_logs evs1 evs2 (w : world T R) : logs evs2 (logs evs1 w) = logs (evs1 ++ evs2) w.
Proof. unfold logs. simpl. by rewrite app_assoc. Qed.

Lemma traces_eq {A} (m : M T R A) r evs evs' :
  traces m r evs → evs = evs' → traces m r evs'.
Proof. by intros Hm <-. Qed.

Lemma traces_ret {A} (a : A) : traces (mret a : M T R A) (Ok a) [].
Proof.
  intros w. exists []. split; [|done].
  unfold logs. destruct w. simpl. by rewrite app_nil_r.
Qed.

Lemma traces_bind {A B} (m : M T R A) (k : A → M T R B) r rk evs1 evs2 :
  traces m r evs1 → (∀ a, r = Ok a → traces (k a) (rk a) evs2) →
  traces (m ≫= k) (r ≫= rk) (evs1 ++ evs2).
Proof.
  intros Hm Hk w. destruct (Hm w) as (e1 & Hrun & He1). rewrite bind_run, Hrun.
  destruct r as [a|e]; simpl.
  - destruct (Hk a eq_refl (logs e1 w)) as (e2 & Hrun2 & He2).
    exists (e1 ++ e2). rewrite Hrun2, logs_logs. split; [done|].
    intros b Hb. by rewrite (He1 a eq_refl), (He2 b Hb).
  - exists e1. split; [done|]. by intros a.
Qed.

Lemma traces_then {A} (m : M T R A) (k : A → M T R A) r evs1 evs2 :
  traces m r evs1 → (∀ a, traces (k a) (Ok a) evs2) →
  traces (m ≫= k) r (evs1 ++ evs2).
Proof.
  intros Hm Hk w.
  destruct (traces_bind m k r (λ a, Ok a) evs1 evs2 Hm (λ a _, Hk a) w) as (e & Hrun & He).
  exists e. split; [rewrite Hrun; by destruct r|].
  intros a Ha. apply (He a). by rewrite Ha.
Qed.

Lemma traces_call_lift {A} lib (r : res A) :
  traces (call lib (lift r) : M T R A) r [Call lib].
Proof.
  intros w. unfold call, lift, log, logs. destruct r as [a|e]; simpl.
  - by exists [Call lib].
  - exists [Failed lib e]. split; [done|]. by intros a.
Qed.

Lemma traces_call_ret {A} lib (a : A) :
  traces (call lib (mret a) : M T R A) (Ok a) [Call lib].
Proof. intros w. by exists [Call lib]. Qed.

Lemma traces_arith {A} op (r : res A) : traces (arith op r : M T R A) r [Arith op].
Proof.
  intros w. unfold arith, log, logs. destruct r as [a|e]; simpl.
  - by exists [Arith op].
  - exists [Failed op e]. split; [done|]. by intros a.
Qed.

Lemma traces_forM {A B} (f : A → M T R B) (g : A → res B) (ev : A → list event) l :
  (∀ x, traces (f x) (g x) (ev x)) →
  traces (forM f l) (mapR g l) (concat (ev <$> l)).
Proof.
  intros Hf. induction l as [|x l IH]; simpl; [apply traces_ret|].
  apply traces_bind; [done|intros y _].
  eapply traces_eq; [|apply app_nil_r].
  apply traces_bind; [done|intros ys _]. apply traces_ret.
Qed.

Lemma concat_singletons {A} (ev : event) (l : list A) :
  concat ((λ _, [ev]) <$> l) = replicate (length l) ev.
Proof. induction l as [|x l IH]; csimpl; [done|]. by rewrite IH. Qed.

(** One run of the with-block: its value, and what it leaves in the
    trace when it returns. *)
Lemma traces_with_block (v : @vertex T) :
  traces (EglGCNLayer.with_block v : M T R _) (vertex_program v)
         (block_events (length (v_innbs v))).
Proof.
  unfold EglGCNLayer.with_block, vertex_program, block_events.
  apply traces_bind.
  - eapply traces_eq;
      [apply (traces_forM _ (λ nb, vmul nb.1 nb.2) (λ _, [Arith "mul"]))|].
    + intros nb. apply traces_arith.
    + apply concat_singletons.
  - intros msgs _.
    apply (traces_bind _ _ _ _ [Call "sum"] [Arith "mul"; Call "collect_output"]);
      [apply traces_call_lift|intros hs _].
    apply (traces_then _ _ _ [Arith "mul"] [Call "collect_output"]);
      [apply traces_arith|intros h; apply traces_call_ret].
Qed.

(** The runs of the with-block over the graph. *)
Lemma traces_zoom g (h nrm : list (list T)) :
  traces (zoom EglGCNLayer.with_block g h nrm : M T R _) (egl_aggregation g h nrm)
         (zoom_events g).
Proof.
  unfold zoom, egl_aggregation, zoom_events.
  eapply traces_eq.
  - apply (traces_forM _ _ (λ v, block_events (length (v_innbs (vertex_at g h nrm v))))).
    intros v. apply traces_with_block.
  - f_equal. apply list_fmap_ext. intros i v _. simpl. by rewrite length_fmap.
Qed.
End Traces.

Section EglRuns.
Context {T R : Type} `{Scalar T} `{Extern T R}.

Lemma egl_after_dropout_result self h (w : world T R) :
  (egl_after_dropout self h w).1 =
  (h ← torch_mm h (t_rows (EglGCNLayer.weight self));
   h ← egl_aggregation (EglGCNLayer.g self) h (heap w !!! EglGCNLayer.norm self);
   h ← bias_stage (EglGCNLayer.bias self) h;
   (activation_stage (EglGCNLayer.activation self) h (rng w)).1).
Proof.
  unfold bias_stage, activation_stage, egl_after_dropout. munfold. simpl.
  destruct (torch_mm _ _) as [h1|e]; simpl; [|done].
  match goal with
  | |- context [zoom ?b ?g ?x ?n ?w0] =>
      destruct (traces_zoom g x n w0) as (evz & -> & _)
  end.
  destruct (egl_aggregation _ _ _) as [o2|e]; simpl; [|done].
  destruct (EglGCNLayer.bias self) as [b|]; simpl;
      [destruct (tadd_bias o2 b) as [o3|e]; simpl; [|done]|];
    (destruct (EglGCNLayer.activation self) as [f|]; simpl; [|done]);
    by destruct (f _ _) as [[o4|e] s4].
Qed.

Lemma EglGCNLayer_forward_result self h (w : world T R) :
  (EglGCNLayer.forward self h w).1 =
  egl_composition self (heap w !!! EglGCNLayer.norm self) h (rng w).
Proof.
  rewrite EglGCNLayer_forward_unfold, bind_run, apply_dropout_run.
  unfold egl_composition.
  destruct (dropout_stage _ h (rng w)) as [[h0|e] s]; simpl; [|done].
  by rewrite egl_after_dropout_result.
Qed.









End EglRuns.
Section Zoom.
Context {T R : Type} `{Scalar T} `{Extern T R}.





End Zoom.

(** ** The constructors *)

Section Constructors.
Context {T R : Type} `{Scalar T} `{Extern T R}.

Lemma reshape_Forall (P : T → Prop) r c (xs : list T) :
  Forall P xs → Forall (Forall P) (reshape r c xs).
Proof.
  revert xs. induction r as [|r IH]; intros xs Hxs; simpl; constructor.
  - by apply Forall_take.
  - apply IH. by apply Forall_drop.
Qed.

Lemma GCNLayer_reset_parameters_ok self (w : world T R) self' w' :
  GCNLayer.reset_parameters self w = (Ok self', w') →
  let stdv := fdiv fone (fsqrt_int (t_size1 (GCNLayer.weight self))) in
  let r := t_size0 (GCNLayer.weight self) in
  let c := t_size1 (GCNLayer.weight self) in
  ∃ wd s1,
    uniform_ (fneg stdv) stdv (r * c) (rng w) = (Ok wd, s1)
    ∧ GCNLayer.weight self' = Tensor2 r c (reshape r c wd)
    ∧ GCNLayer.g self' = GCNLayer.g self
    ∧ GCNLayer.activation self' = GCNLayer.activation self
    ∧ GCNLayer.dropout self' = GCNLayer.dropout self
    ∧ heap w' = heap w ∧ ndata w' = ndata w
    ∧ match GCNLayer.bias self with
      | Some b => ∃ bd s2, uniform_ (fneg stdv) stdv (length b) s1 = (Ok bd, s2)
                           ∧ GCNLayer.bias self' = Some bd
      | None => GCNLayer.bias self' = None
      end.
Proof.
  destruct self as [g [r c rows] b a d]. simpl.
  unfold GCNLayer.reset_parameters, stdv_of, fill_uniform, sample. simpl.
  munfold. intros Hrun. crunch.
  all: eexists _, _; repeat split; try done; eauto.
Qed.

Lemma EglGCNLayer_reset_parameters_ok self (w : world T R) self' w' :
  EglGCNLayer.reset_parameters self w = (Ok self', w') →
  let stdv := fdiv fone (fsqrt_int (t_size1 (EglGCNLayer.weight self))) in
  let r := t_size0 (EglGCNLayer.weight self) in
  let c := t_size1 (EglGCNLayer.weight self) in
  ∃ wd s1,
    uniform_ (fneg stdv) stdv (r * c) (rng w) = (Ok wd, s1)
    ∧ EglGCNLayer.weight self' = Tensor2 r c (reshape r c wd)
    ∧ EglGCNLayer.g self' = EglGCNLayer.g self
    ∧ EglGCNLayer.norm self' = EglGCNLayer.norm self
    ∧ EglGCNLayer.activation self' = EglGCNLayer.activation self
    ∧ EglGCNLayer.dropout self' = EglGCNLayer.dropout self
    ∧ heap w' = heap w ∧ ndata w' = ndata w
    ∧ match EglGCNLayer.bias self with
      | Some b => ∃ bd s2, uniform_ (fneg stdv) stdv (length b) s1 = (Ok bd, s2)
                           ∧ EglGCNLayer.bias self' = Some bd
      | None => EglGCNLayer.bias self' = None
      end.
Proof.
  destruct self as [g n [r c rows] b a d]. simpl.
  unfold EglGCNLayer.reset_parameters, stdv_of, fill_uniform, sample. simpl.
  munfold. intros Hrun. crunch.
  all: eexists _, _; repeat split; try done; eauto.
Qed.

(** What a constructor hands to reset_parameters. *)
Lemma GCNLayer_init_ok g i o a p (b : bool) (w : world T R) self w' :
  GCNLayer.init g i o a p b w = (Ok self, w') →
  ∃ self0 w0,
    GCNLayer.reset_parameters self0 w0 = (Ok self, w')
    ∧ GCNLayer.g self0 = g
    ∧ t_size0 (GCNLayer.weight self0) = i ∧ t_size1 (GCNLayer.weight self0) = o
    ∧ GCNLayer.bias self0 = (if b then Some (zeros o) else None)
    ∧ GCNLayer.activation self0 = a
    ∧ GCNLayer.dropout self0 = dropout_of p
    ∧ heap w0 = heap w ∧ ndata w0 = ndata w.
Proof.
  unfold GCNLayer.init, new_param2, new_param1, make_dropout, dropout_of.
  munfold. intros Hrun.
  destruct b, (fis_zero p); simpl in Hrun.
  all: try destruct (nn_Dropout_init p) as [[]|e]; simpl in Hrun; try done.
  all: eexists _, _; split; [exact Hrun|]; by repeat split.
Qed.

Lemma EglGCNLayer_init_ok g i o a p (b : bool) (w : world T R) self w' :
  EglGCNLayer.init g i o a p b w = (Ok self, w') →
  ∃ self0 w0 w1,
    EglGCNLayer.reset_parameters self0 w0 = (Ok self, w1)
    ∧ EglGCNLayer.g self0 = g
    ∧ ndata w !! "norm" = Some (EglGCNLayer.norm self0)
    ∧ t_size0 (EglGCNLayer.weight self0) = i ∧ t_size1 (EglGCNLayer.weight self0) = o
    ∧ EglGCNLayer.bias self0 = (if b then Some (zeros o) else None)
    ∧ EglGCNLayer.activation self0 = a
    ∧ EglGCNLayer.dropout self0 = dropout_of p
    ∧ heap w0 = heap w ∧ ndata w0 = ndata w
    ∧ heap w' = heap w1 ∧ ndata w' = ndata w1.
Proof.
  unfold EglGCNLayer.init, new_param2, new_param1, make_dropout, dropout_of.
  munfold. intros Hrun.
  destruct (ndata w !! "norm") as [l|] eqn:Hk; simpl in Hrun; [|done].
  destruct b, (fis_zero p); simpl in Hrun.
  all: try destruct (nn_Dropout_init p) as [[]|e]; simpl in Hrun; try done.
  all: match type of Hrun with
       | context [EglGCNLayer.reset_parameters ?s ?w0] =>
           destruct (EglGCNLayer.reset_parameters s w0) as [[s1|e1] w1] eqn:Hreset
       end; simpl in Hrun; try done.
  all: injection Hrun as <- <-.
  all: eexists _, _, _; split; [exact Hreset|]; by repeat split.
Qed.

Lemma GCNLayer_init_attrs g i o a p b (w : world T R) self w' :
  GCNLayer.init g i o a p b w = (Ok self, w') →
  GCNLayer.g self = g ∧ GCNLayer.activation self = a
  ∧ GCNLayer.dropout self = dropout_of p
  ∧ (is_Some (GCNLayer.bias self) ↔ b = true).
Proof.
  intros Hrun.
  apply GCNLayer_init_ok in Hrun as (self0 & w0 & Hreset & Hg & _ & _ & Hb & Ha & Hd & _).
  apply GCNLayer_reset_parameters_ok in Hreset
    as (wd & s1 & _ & _ & Hg' & Ha' & Hd' & _ & _ & Hb').
  rewrite Hg', Ha', Hd'. do 3 (split; [done|]).
  rewrite Hb in Hb'. destruct b.
  - destruct Hb' as (bd & s2 & _ & ->). split; [done|by eexists].
  - rewrite Hb'. split; [by intros [? ?]|done].
Qed.

Lemma EglGCNLayer_init_attrs g i o a p b (w : world T R) self w' :
  EglGCNLayer.init g i o a p b w = (Ok self, w') →
  EglGCNLayer.g self = g ∧ EglGCNLayer.activation self = a
  ∧ EglGCNLayer.dropout self = dropout_of p
  ∧ ndata w !! "norm" = Some (EglGCNLayer.norm self)
  ∧ heap w' = heap w ∧ ndata w' = ndata w.
Proof.
  intros Hrun.
  apply EglGCNLayer_init_ok in Hrun
    as (self0 & w0 & w1 & Hreset & Hg & Hn & _ & _ & _ & Ha & Hd & Hh0 & Hn0 & Hh1 & Hn1).
  apply EglGCNLayer_reset_parameters_ok in Hreset
    as (_ & _ & _ & _ & Hg' & Hnorm' & Ha' & Hd' & Hh & Hnd & _).
  rewrite Hg', Ha', Hd', Hnorm'. repeat split; try done; congruence.
Qed.
End Constructors.

(** ** The forward pass of GCNLayer *)

Section GCNLayerTheorems.
Context {T R : Type} `{Scalar T} `{Extern T R}.

(** C1. On a graph that has node data 'norm', GCNLayer.forward returns
    (or raises) what the composition does: dropout when a dropout module
    was configured, h @ weight, times norm, the message-passing sum over
    in-neighbours, times norm again, plus bias when there is one, the
    activation when there is one. A call that returns made its library
    calls and applied its operators in exactly that order. A layer has a
    dropout module exactly when it was built with a dropout that is not
    zero, a bias when it was built with bias, and the activation it was
    built with. *)
Theorem GCNLayer_forward_composition (self : GCNLayer.t T R) (h : list (list T))
    (w : world T R) (l : nat) (nrm : list (list T)) :
  ndata w !! "norm" = Some l → heap w !! l = Some nrm →
  (GCNLayer.forward self h w).1 = gcn_composition self nrm h (rng w)
  ∧ (∀ out w', GCNLayer.forward self h w = (Ok out, w') →
       new_events w w' = gcn_forward_events self)
  ∧ (∀ g i o a p b (w1 w2 : world T R),
       GCNLayer.init g i o a p b w1 = (Ok self, w2) →
       GCNLayer.dropout self = (if fis_zero p then Dropout_off else Dropout_module p)
       ∧ (is_Some (GCNLayer.bias self) ↔ b = true)
       ∧ GCNLayer.activation self = a).
Proof.
  intros Hk Hl. split; [|split].
  - by apply GCNLayer_forward_result with (l := l).
  - intros out w' Hrun.
    apply GCNLayer_forward_effects in Hrun as (m1 & m2 & _ & _ & Ht).
    by apply new_events_app.
  - intros g i o a p b w1 w2 Hinit.
    by destruct (GCNLayer_init_attrs _ _ _ _ _ _ _ _ _ Hinit) as (_ & ? & ? & ?).
Qed.

(** C2. What update_all(copy_src('h','m'), sum('m','h')) leaves in 'h':
    at every node the sum of the features 'h' had, before the call, at
    the node's in-neighbours, and the zero vector at a node without
    in-neighbours. *)
Theorem update_all_sums_in_neighbours (g : graph) (w : world T R) (l : nat)
    (hpre : list (list T)) :
  ndata w !! "h" = Some l → heap w !! l = Some hpre →
  ∃ w' l' hpost,
    update_all g "h" "h" w = (Ok (), w')
    ∧ ndata w' !! "h" = Some l' ∧ heap w' !! l' = Some hpost
    ∧ length hpost = num_nodes g
    ∧ ∀ v, v < num_nodes g →
        hpost !! v
        = Some (foldl vadd (zeros (feat_width hpre)) ((λ u, hpre !!! u) <$> innbs g v))
        ∧ (innbs g v = [] → hpost !! v = Some (zeros (feat_width hpre))).
Proof.
  intros Hk Hl.
  assert (Hn : heap w !!! l = hpre) by (by apply list_lookup_total_correct).
  eexists _, (length (heap w)), (message_passing g hpre).
  split; [|split; [|split; [|split]]].
  - munfold. simpl. rewrite Hk. simpl. rewrite Hn. reflexivity.
  - simpl. apply lookup_insert_eq.
  - simpl. by apply list_lookup_middle.
  - apply message_passing_length.
  - intros v Hv. rewrite message_passing_lookup by done. unfold reduce_sum.
    split; [done|]. by intros ->.
Qed.

(** C7 (as amended). A call of GCNLayer.forward that returns leaves no
    key 'h' in g.ndata and every other key, 'norm' among them, bound to
    the tensor it was bound to; no tensor that existed before is changed.
    The store is the one the call found, less 'h': it is as found exactly
    when 'h' was not bound before the call, and a tensor that was bound
    to 'h' is no longer reachable through the store. *)
Theorem GCNLayer_forward_frame (self : GCNLayer.t T R) (h : list (list T))
    (w w' : world T R) (out : list (list T)) :
  GCNLayer.forward self h w = (Ok out, w') →
  ndata w' !! "h" = None
  ∧ ndata w' !! "norm" = ndata w !! "norm"
  ∧ (∀ k, k ≠ "h" → ndata w' !! k = ndata w !! k)
  ∧ (∀ a t, heap w !! a = Some t → heap w' !! a = Some t)
  ∧ ndata w' = delete "h" (ndata w)
  ∧ (ndata w' = ndata w ↔ ndata w !! "h" = None).
Proof.
  intros Hrun.
  apply GCNLayer_forward_effects in Hrun as (m1 & m2 & Hh & Hn & _).
  rewrite Hn, Hh. repeat split.
  - apply lookup_delete_eq.
  - by apply lookup_delete_ne.
  - intros k Hk. by apply lookup_delete_ne.
  - intros a t Ha. by apply lookup_app_l_Some.
  - intros Heq. rewrite <- Heq. apply lookup_delete_eq.
  - apply delete_id.
Qed.
End GCNLayerTheorems.

(** ** The two aggregation paths *)

Section Equivalence.
Context {T R : Type} `{Scalar T} `{Extern T R}.


End Equivalence.

(** ** The script's own arithmetic *)

Section OwnArithmetic.
Context {T R : Type} `{Scalar T} `{Extern T R}.

End OwnArithmetic.


(** ** Where failures come from *)

Section Discipline.
Context {T R : Type} `{Scalar T} `{Extern T R}.

Lemma clean_app (evs1 evs2 : list event) : clean evs1 → clean evs2 → clean (evs1 ++ evs2).
Proof. apply Forall_app_2. Qed.

Lemma disciplined_ret own {A} (a : A) : disciplined own (mret a : M T R A).
Proof.
  intros w. exists []. split; [by rewrite app_nil_r|]. constructor. constructor.
Qed.

Lemma disciplined_bind own {A B} (m : M T R A) (k : A → M T R B) :
  disciplined own m → (∀ a, disciplined own (k a)) → disciplined own (m ≫= k).
Proof.
  intros Hm Hk w. rewrite bind_run.
  destruct (Hm w) as (evs1 & Ht1 & Ho1).
  destruct (m w) as [[a|e] w1]; simpl in *.
  - destruct (Hk a w1) as (evs2 & Ht2 & Ho2).
    exists (evs1 ++ evs2). split; [by rewrite Ht2, Ht1, app_assoc|].
    inversion Ho1; subst.
    inversion Ho2; subst.
    + constructor. by apply clean_app.
    + rewrite app_assoc. constructor. by apply clean_app.
    + apply outcome_own; [done|]. by apply clean_app.
  - exists evs1. split; [done|].
    inversion Ho1; subst; [by constructor|by apply outcome_own].
Qed.

Lemma disciplined_mono (own own' : exn → Prop) {A} (m : M T R A) :
  (∀ e, own e → own' e) → disciplined own m → disciplined own' m.
Proof.
  intros Hsub Hm w. destruct (Hm w) as (evs & Ht & Ho). exists evs. split; [done|].
  inversion Ho; subst; [by constructor|by constructor|].
  apply outcome_own; auto.
Qed.

Lemma disciplined_call own {A} lib (m : M T R A) :
  silent m → disciplined own (call lib m).
Proof.
  intros Hs w. specialize (Hs w). unfold call.
  destruct (m w) as [[a|e] w1]; simpl in *.
  - exists [Call lib]. split; [by rewrite Hs|]. constructor. by repeat constructor.
  - exists ([] ++ [Failed lib e]). split; [by rewrite Hs|]. constructor. constructor.
Qed.

Lemma disciplined_arith own {A} op (r : res A) : disciplined own (arith op r : M T R A).
Proof.
  intros w. unfold arith. destruct r as [a|e]; simpl.
  - exists [Arith op]. split; [done|]. constructor. by repeat constructor.
  - exists ([] ++ [Failed op e]). split; [done|]. constructor. constructor.
Qed.

Lemma disciplined_tick own op : disciplined own (tick (Arith op) : M T R unit).
Proof.
  intros w. exists [Arith op]. split; [done|]. constructor. by repeat constructor.
Qed.

Lemma disciplined_raise_py (own : exn → Prop) {A} e :
  own e → disciplined own (raise_py e : M T R A).
Proof.
  intros He w. exists []. split; [by rewrite app_nil_r|].
  apply outcome_own; [done|constructor].
Qed.

Lemma disciplined_deref own l : disciplined own (deref l : M T R _).
Proof.
  intros w. exists []. split; [by rewrite app_nil_r|]. constructor. constructor.
Qed.

Lemma silent_ret {A} (a : A) : silent (mret a : M T R A).
Proof. by intros w. Qed.

Lemma silent_lift {A} (r : res A) : silent (lift r : M T R A).
Proof. by intros w. Qed.

Lemma silent_lookup_key k : silent (lookup_key k : M T R _).
Proof. intros w. unfold lookup_key. by destruct (ndata w !! k). Qed.

Lemma silent_store_key k t : silent (store_key k t : M T R _).
Proof. by intros w. Qed.

Lemma silent_remove_key k : silent (remove_key k : M T R _).
Proof. intros w. unfold remove_key. by destruct (ndata w !! k). Qed.

Lemma silent_send_and_recv g src out : silent (send_and_recv g src out : M T R _).
Proof.
  intros w. unfold send_and_recv, lookup_key, deref, store_key, mbind, M_bind.
  by destruct (ndata w !! src).
Qed.

Lemma silent_run_dropout p h : silent (run_dropout p h : M T R _).
Proof. intros w. unfold run_dropout. by destruct (nn_Dropout_call p h (rng w)). Qed.

Lemma silent_sample lo hi n : silent (sample lo hi n : M T R _).
Proof. intros w. unfold sample. by destruct (uniform_ lo hi n (rng w)). Qed.

Lemma silent_run_activation f h : silent (run_activation f h : M T R _).
Proof. intros w. unfold run_activation. by destruct (f h (rng w)). Qed.

Lemma disciplined_forM own {A B} (f : A → M T R B) l :
  (∀ x, disciplined own (f x)) → disciplined own (forM f l).
Proof.
  intros Hf. induction l as [|x l IH]; simpl; [apply disciplined_ret|].
  apply disciplined_bind; [done|intros y].
  apply disciplined_bind; [done|intros ys]. apply disciplined_ret.
Qed.
End Discipline.

Create HintDb discipline.
#[export] Hint Resolve disciplined_ret disciplined_call disciplined_arith
  disciplined_tick disciplined_deref silent_ret silent_lift silent_lookup_key
  silent_store_key silent_remove_key silent_send_and_recv silent_run_dropout
  silent_sample silent_run_activation : discipline.

(** Walk down a chain of binds. *)
Ltac discipline :=
  repeat first
    [ apply disciplined_bind; [|intros ?]
    | solve [eauto with discipline] ].

Section DisciplineOfTheModule.
Context {T R : Type} `{Scalar T} `{Extern T R}.

Lemma disciplined_apply_dropout own d h :
  disciplined own (apply_dropout d h : M T R _).
Proof. destruct d; unfold apply_dropout; discipline. Qed.

Lemma disciplined_add_bias own b h : disciplined own (add_bias b h : M T R _).
Proof. destruct b; unfold add_bias; discipline. Qed.

Lemma disciplined_apply_activation own a h :
  disciplined own (apply_activation a h : M T R _).
Proof. destruct a; unfold apply_activation; discipline. Qed.

Lemma disciplined_GCNLayer_forward own self h :
  disciplined own (GCNLayer.forward self h : M T R _).
Proof.
  unfold GCNLayer.forward, ndata_getitem, ndata_setitem, update_all, ndata_pop.
  pose proof disciplined_apply_dropout. pose proof disciplined_add_bias.
  pose proof disciplined_apply_activation.
  discipline.
Qed.

Lemma disciplined_with_block own v :
  disciplined own (EglGCNLayer.with_block v : M T R _).
Proof.
  unfold EglGCNLayer.with_block.
  apply disciplined_bind; [apply disciplined_forM; intros nb|intros msgs]; discipline.
Qed.

Lemma disciplined_zoom own g h nrm :
  disciplined own (zoom EglGCNLayer.with_block g h nrm : M T R _).
Proof. apply disciplined_forM. intros v. apply disciplined_with_block. Qed.

Lemma disciplined_EglGCNLayer_forward own self h :
  disciplined own (EglGCNLayer.forward self h : M T R _).
Proof.
  unfold EglGCNLayer.forward.
  pose proof disciplined_apply_dropout. pose proof disciplined_add_bias.
  pose proof disciplined_apply_activation. pose proof disciplined_zoom.
  discipline.
Qed.

Lemma disciplined_GCN_forward_loop own layers h :
  disciplined own (GCN.forward_loop layers h : M T R _).
Proof.
  revert h. induction layers as [|l ls IH]; intros h; simpl.
  - apply disciplined_ret.
  - apply disciplined_bind; [apply disciplined_GCNLayer_forward|done].
Qed.

Lemma disciplined_EglGCN_forward_loop own layers h :
  disciplined own (EglGCN.forward_loop layers h : M T R _).
Proof.
  revert h. induction layers as [|l ls IH]; intros h; simpl.
  - apply disciplined_ret.
  - apply disciplined_bind; [apply disciplined_EglGCNLayer_forward|done].
Qed.
End DisciplineOfTheModule.


Section ConstructorDiscipline.
Context {T R : Type} `{Scalar T} `{Extern T R}.

(** The bind rule when the continuation needs to know what was returned. *)
Lemma disciplined_bind_returning own {A B} (P : A → Prop) (m : M T R A)
    (k : A → M T R B) :
  disciplined own m → (∀ w a w', m w = (Ok a, w') → P a) →
  (∀ a, P a → disciplined own (k a)) → disciplined own (m ≫= k).
Proof.
  intros Hm HP Hk w. rewrite bind_run.
  destruct (Hm w) as (evs1 & Ht1 & Ho1).
  destruct (m w) as [[a|e] w1] eqn:Hrun; simpl in *.
  - destruct (Hk a (HP _ _ _ Hrun) w1) as (evs2 & Ht2 & Ho2).
    exists (evs1 ++ evs2). split; [by rewrite Ht2, Ht1, app_assoc|].
    inversion Ho1; subst.
    inversion Ho2; subst.
    + constructor. by apply clean_app.
    + rewrite app_assoc. constructor. by apply clean_app.
    + apply outcome_own; [done|]. by apply clean_app.
  - exists evs1. split; [done|].
    inversion Ho1; subst; [by constructor|by apply outcome_own].
Qed.

Lemma zero_division_at_mono (ns ns' : list nat) e :
  ns ⊆ ns' → zero_division_at ns e → zero_division_at ns' e.
Proof. intros Hsub (-> & n & Hn & Hz). split; [done|]. exists n. auto. Qed.

Lemma disciplined_stdv_of n : disciplined (zero_division_at [n]) (stdv_of n : M T R _).
Proof.
  intros w. unfold stdv_of. munfold. simpl.
  destruct (fis_zero (fsqrt_int n)) eqn:Hz; simpl.
  - exists [Call "math.sqrt"]. split; [done|].
    apply outcome_own; [|by repeat constructor].
    split; [done|]. exists n. split; [apply list_elem_of_here|done].
  - exists [Call "math.sqrt"; Arith "truediv"]. split; [by rewrite <- app_assoc|].
    constructor. by repeat constructor.
Qed.

Lemma disciplined_fill_uniform own stdv n :
  disciplined own (fill_uniform stdv n : M T R _).
Proof. unfold fill_uniform. discipline. Qed.

Lemma disciplined_make_dropout own p : disciplined own (make_dropout p : M T R _).
Proof. unfold make_dropout. destruct (fis_zero p); discipline. Qed.

Lemma disciplined_new_param2 own r c : disciplined own (new_param2 r c : M T R _).
Proof. unfold new_param2. discipline. Qed.

Lemma disciplined_new_param1 own c : disciplined own (new_param1 c : M T R _).
Proof. unfold new_param1. discipline. Qed.

Lemma disciplined_GCNLayer_reset_parameters (self : GCNLayer.t T R) :
  disciplined (zero_division_at [t_size1 (GCNLayer.weight self)])
              (GCNLayer.reset_parameters self : M T R _).
Proof.
  unfold GCNLayer.reset_parameters.
  pose proof disciplined_fill_uniform.
  apply disciplined_bind; [apply disciplined_stdv_of|intros stdv].
  destruct (GCNLayer.weight self) as [r c rows].
  apply disciplined_bind; [done|intros wd]. simpl.
  destruct (GCNLayer.bias self); discipline.
Qed.

Lemma disciplined_EglGCNLayer_reset_parameters (self : EglGCNLayer.t T R) :
  disciplined (zero_division_at [t_size1 (EglGCNLayer.weight self)])
              (EglGCNLayer.reset_parameters self : M T R _).
Proof.
  unfold EglGCNLayer.reset_parameters.
  pose proof disciplined_fill_uniform.
  apply disciplined_bind; [apply disciplined_stdv_of|intros stdv].
  destruct (EglGCNLayer.weight self) as [r c rows].
  apply disciplined_bind; [done|intros wd]. simpl.
  destruct (EglGCNLayer.bias self); discipline.
Qed.

Lemma new_param2_returns r c (w : world T R) t w' :
  new_param2 r c w = (Ok t, w') → t_size1 t = c.
Proof. unfold new_param2. munfold. by intros [= <- _]. Qed.

Lemma disciplined_GCNLayer_init g i o a p b :
  disciplined (zero_division_at [o]) (GCNLayer.init g i o a p b : M T R _).
Proof.
  unfold GCNLayer.init.
  apply (disciplined_bind_returning _ (λ t, t_size1 t = o));
    [apply disciplined_new_param2|apply new_param2_returns|intros weight Hw].
  apply disciplined_bind;
    [destruct b; pose proof disciplined_new_param1; discipline|intros bv].
  apply disciplined_bind; [apply disciplined_make_dropout|intros d].
  rewrite <- Hw. apply (disciplined_GCNLayer_reset_parameters (GCNLayer.Build _ _ _ _ _)).
Qed.

Lemma disciplined_EglGCNLayer_init g i o a p b :
  disciplined (zero_division_at [o]) (EglGCNLayer.init g i o a p b : M T R _).
Proof.
  unfold EglGCNLayer.init, ndata_getitem.
  apply disciplined_bind; [discipline|intros l].
  apply (disciplined_bind_returning _ (λ t, t_size1 t = o));
    [apply disciplined_new_param2|apply new_param2_returns|intros weight Hw].
  apply disciplined_bind;
    [destruct b; pose proof disciplined_new_param1; discipline|intros bv].
  apply disciplined_bind; [apply disciplined_make_dropout|intros d].
  apply disciplined_bind; [|intros self; discipline].
  rewrite <- Hw.
  apply (disciplined_EglGCNLayer_reset_parameters (EglGCNLayer.Build _ _ _ _ _ _)).
Qed.

Lemma disciplined_GCN_append_layers own n mk layers :
  disciplined own mk →
  disciplined own (GCN.append_layers n mk layers : M T R _).
Proof.
  intros Hmk. revert layers. induction n as [|n IH]; intros layers; simpl.
  - apply disciplined_ret.
  - apply disciplined_bind; [done|intros l; apply IH].
Qed.

Lemma disciplined_EglGCN_append_layers own n mk layers :
  disciplined own mk →
  disciplined own (EglGCN.append_layers n mk layers : M T R _).
Proof.
  intros Hmk. revert layers. induction n as [|n IH]; intros layers; simpl.
  - apply disciplined_ret.
  - apply disciplined_bind; [done|intros l; apply IH].
Qed.

Lemma disciplined_GCN_init g i hid cls n a p :
  disciplined (zero_division_at [hid; cls]) (GCN.init g i hid cls n a p : M T R _).
Proof.
  assert (Hhid : ∀ g i a p b, disciplined (zero_division_at [hid; cls])
                   (GCNLayer.init g i hid a p b : M T R _)).
  { intros. eapply disciplined_mono; [|apply disciplined_GCNLayer_init].
    intros e. apply zero_division_at_mono.
    intros x ->%list_elem_of_singleton. repeat constructor. }
  assert (Hcls : ∀ g i a p b, disciplined (zero_division_at [hid; cls])
                   (GCNLayer.init g i cls a p b : M T R _)).
  { intros. eapply disciplined_mono; [|apply disciplined_GCNLayer_init].
    intros e. apply zero_division_at_mono.
    intros x ->%list_elem_of_singleton. repeat constructor. }
  unfold GCN.init.
  apply disciplined_bind; [apply Hhid|intros l0].
  apply disciplined_bind; [by apply disciplined_GCN_append_layers|intros ls].
  apply disciplined_bind; [apply Hcls|intros ll]. apply disciplined_ret.
Qed.

Lemma disciplined_EglGCN_init g i hid cls n a p :
  disciplined (zero_division_at [hid; cls]) (EglGCN.init g i hid cls n a p : M T R _).
Proof.
  assert (Hhid : ∀ g i a p b, disciplined (zero_division_at [hid; cls])
                   (EglGCNLayer.init g i hid a p b : M T R _)).
  { intros. eapply disciplined_mono; [|apply disciplined_EglGCNLayer_init].
    intros e. apply zero_division_at_mono.
    intros x ->%list_elem_of_singleton. repeat constructor. }
  assert (Hcls : ∀ g i a p b, disciplined (zero_division_at [hid; cls])
                   (EglGCNLayer.init g i cls a p b : M T R _)).
  { intros. eapply disciplined_mono; [|apply disciplined_EglGCNLayer_init].
    intros e. apply zero_division_at_mono.
    intros x ->%list_elem_of_singleton. repeat constructor. }
  unfold EglGCN.init.
  apply disciplined_bind; [apply Hhid|intros l0].
  apply disciplined_bind; [by apply disciplined_EglGCN_append_layers|intros ls].
  apply disciplined_bind; [apply Hcls|intros ll]. apply disciplined_ret.
Qed.

(** C6 (as amended). No method handles a failure. A forward pass of
    GCNLayer, EglGCNLayer, GCN or EglGCN that raises [e] raises what a
    library call of the pass raised, that call being the first to fail
    and the last thing the pass did; a pass that returns had no failing
    call in it. The constructors are the same, except that they raise
    ZeroDivisionError themselves, from 1. / math.sqrt(n), when the
    square root of an output size is zero. *)
Theorem failures_come_from_library_calls :
  (∀ (self : GCNLayer.t T R) h,
     disciplined no_own_exception (GCNLayer.forward self h : M T R _))
  ∧ (∀ (self : EglGCNLayer.t T R) h,
     disciplined no_own_exception (EglGCNLayer.forward self h : M T R _))
  ∧ (∀ (self : GCN.t T R) h,
     disciplined no_own_exception (GCN.forward self h : M T R _))
  ∧ (∀ (self : EglGCN.t T R) h,
     disciplined no_own_exception (EglGCN.forward self h : M T R _))
  ∧ (∀ g i o a p b,
     disciplined (zero_division_at [o]) (GCNLayer.init g i o a p b : M T R _))
  ∧ (∀ g i o a p b,
     disciplined (zero_division_at [o]) (EglGCNLayer.init g i o a p b : M T R _))
  ∧ (∀ g i hid cls n a p,
     disciplined (zero_division_at [hid; cls]) (GCN.init g i hid cls n a p : M T R _))
  ∧ (∀ g i hid cls n a p,
     disciplined (zero_division_at [hid; cls])
                 (EglGCN.init g i hid cls n a p : M T R _)).
Proof.
  repeat split; intros.
  - apply disciplined_GCNLayer_forward.
  - apply disciplined_EglGCNLayer_forward.
  - apply disciplined_GCN_forward_loop.
  - apply disciplined_EglGCN_forward_loop.
  - apply disciplined_GCNLayer_init.
  - apply disciplined_EglGCNLayer_init.
  - apply disciplined_GCN_init.
  - apply disciplined_EglGCN_init.
Qed.
End ConstructorDiscipline.


(** ** Parameter initialisation *)

Section Initialisation.
Context {T R : Type} `{Scalar T} `{Extern T R}.

Lemma GCNLayer_reset_within self (w : world T R) self' w' :
  uniform_in_bounds →
  GCNLayer.reset_parameters self w = (Ok self', w') →
  let stdv := fdiv fone (fsqrt_int (t_size1 (GCNLayer.weight self))) in
  t_size1 (GCNLayer.weight self') = t_size1 (GCNLayer.weight self)
  ∧ Forall (Forall (within stdv)) (t_rows (GCNLayer.weight self'))
  ∧ (∀ b, GCNLayer.bias self' = Some b → Forall (within stdv) b)
  ∧ (is_Some (GCNLayer.bias self') ↔ is_Some (GCNLayer.bias self)).
Proof.
  intros Hu Hrun.
  apply GCNLayer_reset_parameters_ok in Hrun
    as (wd & s1 & Hwd & Hw & _ & _ & _ & _ & _ & Hb).
  rewrite Hw. simpl. split; [done|]. split; [|split].
  - apply reshape_Forall. by eapply Hu.
  - intros b Hsome. destruct (GCNLayer.bias self).
    + destruct Hb as (bd & s2 & Hbd & Hb). rewrite Hb in Hsome.
      injection Hsome as <-. by eapply Hu.
    + congruence.
  - destruct (GCNLayer.bias self).
    + destruct Hb as (bd & s2 & _ & ->). by split.
    + rewrite Hb. done.
Qed.

Lemma EglGCNLayer_reset_within self (w : world T R) self' w' :
  uniform_in_bounds →
  EglGCNLayer.reset_parameters self w = (Ok self', w') →
  let stdv := fdiv fone (fsqrt_int (t_size1 (EglGCNLayer.weight self))) in
  t_size1 (EglGCNLayer.weight self') = t_size1 (EglGCNLayer.weight self)
  ∧ Forall (Forall (within stdv)) (t_rows (EglGCNLayer.weight self'))
  ∧ (∀ b, EglGCNLayer.bias self' = Some b → Forall (within stdv) b)
  ∧ (is_Some (EglGCNLayer.bias self') ↔ is_Some (EglGCNLayer.bias self)).
Proof.
  intros Hu Hrun.
  apply EglGCNLayer_reset_parameters_ok in Hrun
    as (wd & s1 & Hwd & Hw & _ & _ & _ & _ & _ & _ & Hb).
  rewrite Hw. simpl. split; [done|]. split; [|split].
  - apply reshape_Forall. by eapply Hu.
  - intros b Hsome. destruct (EglGCNLayer.bias self).
    + destruct Hb as (bd & s2 & Hbd & Hb). rewrite Hb in Hsome.
      injection Hsome as <-. by eapply Hu.
    + congruence.
  - destruct (EglGCNLayer.bias self).
    + destruct Hb as (bd & s2 & _ & ->). by split.
    + rewrite Hb. done.
Qed.

(** C5. Provided the sampler returns values between the bounds it is
    given: after reset_parameters every entry of weight lies in
    [-stdv, stdv], stdv = 1/sqrt(weight.size(1)), and so does every entry
    of bias when there is a bias; a layer that __init__ returned
    (GCNLayer or EglGCNLayer) has weight.size(1) = out_feats and its
    entries within 1/sqrt(out_feats), and it has a bias exactly when it
    was asked for one. *)
Theorem reset_parameters_within_stdv :
  uniform_in_bounds →
  (∀ (self self' : GCNLayer.t T R) (w w' : world T R),
     GCNLayer.reset_parameters self w = (Ok self', w') →
     let stdv := fdiv fone (fsqrt_int (t_size1 (GCNLayer.weight self))) in
     Forall (Forall (within stdv)) (t_rows (GCNLayer.weight self'))
     ∧ ∀ b, GCNLayer.bias self' = Some b → Forall (within stdv) b)
  ∧ (∀ (self self' : EglGCNLayer.t T R) (w w' : world T R),
     EglGCNLayer.reset_parameters self w = (Ok self', w') →
     let stdv := fdiv fone (fsqrt_int (t_size1 (EglGCNLayer.weight self))) in
     Forall (Forall (within stdv)) (t_rows (EglGCNLayer.weight self'))
     ∧ ∀ b, EglGCNLayer.bias self' = Some b → Forall (within stdv) b)
  ∧ (∀ g i o a p (b : bool) (w w' : world T R) (self : GCNLayer.t T R),
     GCNLayer.init g i o a p b w = (Ok self, w') →
     let stdv := fdiv fone (fsqrt_int o) in
     t_size1 (GCNLayer.weight self) = o
     ∧ Forall (Forall (within stdv)) (t_rows (GCNLayer.weight self))
     ∧ (∀ bv, GCNLayer.bias self = Some bv → Forall (within stdv) bv)
     ∧ (is_Some (GCNLayer.bias self) ↔ b = true))
  ∧ (∀ g i o a p (b : bool) (w w' : world T R) (self : EglGCNLayer.t T R),
     EglGCNLayer.init g i o a p b w = (Ok self, w') →
     let stdv := fdiv fone (fsqrt_int o) in
     t_size1 (EglGCNLayer.weight self) = o
     ∧ Forall (Forall (within stdv)) (t_rows (EglGCNLayer.weight self))
     ∧ (∀ bv, EglGCNLayer.bias self = Some bv → Forall (within stdv) bv)
     ∧ (is_Some (EglGCNLayer.bias self) ↔ b = true)).
Proof.
  intros Hu. split; [|split; [|split]].
  - intros self self' w w' Hrun.
    destruct (GCNLayer_reset_within _ _ _ _ Hu Hrun) as (_ & Hw & Hb & _). by split.
  - intros self self' w w' Hrun.
    destruct (EglGCNLayer_reset_within _ _ _ _ Hu Hrun) as (_ & Hw & Hb & _). by split.
  - intros g i o a p b w w' self Hrun.
    apply GCNLayer_init_ok in Hrun
      as (self0 & w0 & Hreset & _ & _ & Ho & Hb0 & _).
    destruct (GCNLayer_reset_within _ _ _ _ Hu Hreset) as (Hs & Hw & Hb & Hsome).
    rewrite Ho in Hs, Hw, Hb. repeat split; try done.
    + rewrite Hsome, Hb0. destruct b; [done|]. by intros [? ?].
    + rewrite Hsome, Hb0. intros ->. by eexists.
  - intros g i o a p b w w' self Hrun.
    apply EglGCNLayer_init_ok in Hrun
      as (self0 & w0 & w1 & Hreset & _ & _ & _ & Ho & Hb0 & _).
    destruct (EglGCNLayer_reset_within _ _ _ _ Hu Hreset) as (Hs & Hw & Hb & Hsome).
    rewrite Ho in Hs, Hw, Hb. repeat split; try done.
    + rewrite Hsome, Hb0. destruct b; [done|]. by intros [? ?].
    + rewrite Hsome, Hb0. intros ->. by eexists.
Qed.
End Initialisation.

(** ** The stacks of layers *)

Section Stacks.
Context {T R : Type} `{Scalar T} `{Extern T R}.

Lemma bind_ret_run {A} (m : M T R A) w : (m ≫= mret) w = m w.
Proof. rewrite bind_run. by destruct (m w) as [[a|e] w']. Qed.

Lemma GCN_append_layers_ok n (mk : M T R (GCNLayer.t T R)) layers w ls w' :
  GCN.append_layers n mk layers w = (Ok ls, w') →
  ∃ new, ls = layers ++ new ∧ length new = n ∧ Forall (built mk) new.
Proof.
  revert layers w. induction n as [|n IH]; intros layers w; simpl.
  - intros [= <- <-]. exists []. by rewrite app_nil_r.
  - rewrite bind_run. destruct (mk w) as [[l|e] w1] eqn:Hl; [|done].
    intros Hrun. apply IH in Hrun as (new & -> & Hlen & Hall).
    exists (l :: new). rewrite <- app_assoc. simpl. repeat split; [by rewrite Hlen|].
    constructor; [by exists w, w1|done].
Qed.

Lemma EglGCN_append_layers_ok n (mk : M T R (EglGCNLayer.t T R)) layers w ls w' :
  EglGCN.append_layers n mk layers w = (Ok ls, w') →
  ∃ new, ls = layers ++ new ∧ length new = n ∧ Forall (built mk) new.
Proof.
  revert layers w. induction n as [|n IH]; intros layers w; simpl.
  - intros [= <- <-]. exists []. by rewrite app_nil_r.
  - rewrite bind_run. destruct (mk w) as [[l|e] w1] eqn:Hl; [|done].
    intros Hrun. apply IH in Hrun as (new & -> & Hlen & Hall).
    exists (l :: new). rewrite <- app_assoc. simpl. repeat split; [by rewrite Hlen|].
    constructor; [by exists w, w1|done].
Qed.

Lemma GCN_forward_loop_snoc (ls : list (GCNLayer.t T R)) ll h (w : world T R) :
  GCN.forward_loop (ls ++ [ll]) h w
  = (h ← GCN.forward_loop ls h; GCNLayer.forward ll h) w.
Proof.
  revert h w. induction ls as [|l ls IH]; intros h w; simpl.
  - by rewrite bind_ret_run.
  - rewrite !bind_run. destruct (GCNLayer.forward l h w) as [[h1|e] w1]; [|done].
    apply IH.
Qed.

Lemma EglGCN_forward_loop_snoc (ls : list (EglGCNLayer.t T R)) ll h (w : world T R) :
  EglGCN.forward_loop (ls ++ [ll]) h w
  = (h ← EglGCN.forward_loop ls h; EglGCNLayer.forward ll h) w.
Proof.
  revert h w. induction ls as [|l ls IH]; intros h w; simpl.
  - by rewrite bind_ret_run.
  - rewrite !bind_run. destruct (EglGCNLayer.forward l h w) as [[h1|e] w1]; [|done].
    apply IH.
Qed.

(** C8. For n_layers >= 1 a GCN (and an EglGCN) that __init__ returned
    holds n_layers + 1 layers: first a layer built with dropout 0.0 and
    the given activation, whose self.dropout is therefore 0.; then
    n_layers - 1 layers built with the given activation and dropout;
    last a layer built with activation None and the given dropout.
    forward passes the features through them in that order. *)
Theorem GCN_init_layers :
  (∀ g i hid cls (n : Z) a p (w w' : world T R) (self : GCN.t T R),
     (1 ≤ n)%Z → GCN.init g i hid cls n a p w = (Ok self, w') →
     ∃ l0 hidden ll,
       GCN.layers self = l0 :: hidden ++ [ll]
       ∧ length (GCN.layers self) = Z.to_nat n + 1
       ∧ length hidden = Z.to_nat n - 1
       ∧ built (GCNLayer.init g i hid a fzero true) l0
       ∧ GCNLayer.activation l0 = a ∧ GCNLayer.dropout l0 = Dropout_off
       ∧ Forall (λ l, built (GCNLayer.init g hid hid a p true) l
                      ∧ GCNLayer.activation l = a
                      ∧ GCNLayer.dropout l = dropout_of p) hidden
       ∧ built (GCNLayer.init g hid cls None p true) ll
       ∧ GCNLayer.activation ll = None ∧ GCNLayer.dropout ll = dropout_of p
       ∧ ∀ h w0, GCN.forward self h w0
                 = (h ← GCNLayer.forward l0 h;
                    h ← GCN.forward_loop hidden h;
                    GCNLayer.forward ll h) w0)
  ∧ (∀ g i hid cls (n : Z) a p (w w' : world T R) (self : EglGCN.t T R),
     (1 ≤ n)%Z → EglGCN.init g i hid cls n a p w = (Ok self, w') →
     ∃ l0 hidden ll,
       EglGCN.layers self = l0 :: hidden ++ [ll]
       ∧ length (EglGCN.layers self) = Z.to_nat n + 1
       ∧ length hidden = Z.to_nat n - 1
       ∧ built (EglGCNLayer.init g i hid a fzero true) l0
       ∧ EglGCNLayer.activation l0 = a ∧ EglGCNLayer.dropout l0 = Dropout_off
       ∧ Forall (λ l, built (EglGCNLayer.init g hid hid a p true) l
                      ∧ EglGCNLayer.activation l = a
                      ∧ EglGCNLayer.dropout l = dropout_of p) hidden
       ∧ built (EglGCNLayer.init g hid cls None p true) ll
       ∧ EglGCNLayer.activation ll = None ∧ EglGCNLayer.dropout ll = dropout_of p
       ∧ ∀ h w0, EglGCN.forward self h w0
                 = (h ← EglGCNLayer.forward l0 h;
                    h ← EglGCN.forward_loop hidden h;
                    EglGCNLayer.forward ll h) w0).
Proof.
  split.
  - intros g i hid cls n a p w w' self Hn. unfold GCN.init. rewrite bind_run.
    destruct (GCNLayer.init g i hid a fzero true w) as [[l0|e] w1] eqn:Hin; [|done].
    rewrite bind_run.
    destruct (GCN.append_layers _ _ _ w1) as [[ls|e] w2] eqn:Hls; [|done].
    rewrite bind_run.
    destruct (GCNLayer.init g hid cls None p true w2) as [[ll|e] w3] eqn:Hll; [|done].
    intros [= <- <-].
    apply GCN_append_layers_ok in Hls as (hidden & -> & Hlen & Hall).
    exists l0, hidden, ll. simpl.
    destruct (GCNLayer_init_attrs _ _ _ _ _ _ _ _ _ Hin) as (_ & Ha0 & Hd0 & _).
    destruct (GCNLayer_init_attrs _ _ _ _ _ _ _ _ _ Hll) as (_ & Hal & Hdl & _).
    unfold dropout_of in Hd0. rewrite fis_zero_fzero in Hd0.
    split; [done|]. split; [rewrite length_app, Hlen; simpl; lia|].
    split; [lia|]. split; [by exists w, w1|]. split; [done|]. split; [done|].
    split.
    { eapply Forall_impl; [exact Hall|]. intros l (wa & wb & Hl).
      destruct (GCNLayer_init_attrs _ _ _ _ _ _ _ _ _ Hl) as (_ & ? & ? & _).
      split; [by exists wa, wb|done]. }
    split; [by exists w2, w3|]. split; [done|]. split; [done|].
    intros h w0. unfold GCN.forward. simpl. rewrite !bind_run.
    destruct (GCNLayer.forward l0 h w0) as [[h1|e] w4]; [|done].
    apply GCN_forward_loop_snoc.
  - intros g i hid cls n a p w w' self Hn. unfold EglGCN.init. rewrite bind_run.
    destruct (EglGCNLayer.init g i hid a fzero true w) as [[l0|e] w1] eqn:Hin; [|done].
    rewrite bind_run.
    destruct (EglGCN.append_layers _ _ _ w1) as [[ls|e] w2] eqn:Hls; [|done].
    rewrite bind_run.
    destruct (EglGCNLayer.init g hid cls None p true w2) as [[ll|e] w3] eqn:Hll; [|done].
    intros [= <- <-].
    apply EglGCN_append_layers_ok in Hls as (hidden & -> & Hlen & Hall).
    exists l0, hidden, ll. simpl.
    destruct (EglGCNLayer_init_attrs _ _ _ _ _ _ _ _ _ Hin) as (_ & Ha0 & Hd0 & _).
    destruct (EglGCNLayer_init_attrs _ _ _ _ _ _ _ _ _ Hll) as (_ & Hal & Hdl & _).
    unfold dropout_of in Hd0. rewrite fis_zero_fzero in Hd0.
    split; [done|]. split; [rewrite length_app, Hlen; simpl; lia|].
    split; [lia|]. split; [by exists w, w1|]. split; [done|]. split; [done|].
    split.
    { eapply Forall_impl; [exact Hall|]. intros l (wa & wb & Hl).
      destruct (EglGCNLayer_init_attrs _ _ _ _ _ _ _ _ _ Hl) as (_ & ? & ? & _).
      split; [by exists wa, wb|done]. }
    split; [by exists w2, w3|]. split; [done|]. split; [done|].
    intros h w0. unfold EglGCN.forward. simpl. rewrite !bind_run.
    destruct (EglGCNLayer.forward l0 h w0) as [[h1|e] w4]; [|done].
    apply EglGCN_forward_loop_snoc.
Qed.
End Stacks.

(** ** Who sees a change of g.ndata['norm'] *)

Section NormReference.
Context {T R : Type} `{Scalar T} `{Extern T R}.

Lemma ndata_setitem_run k t (w w2 : world T R) :
  ndata_setitem k t w = (Ok (), w2) →
  heap w2 = heap w ++ [t] ∧ ndata w2 = <[k := length (heap w)]> (ndata w)
  ∧ rng w2 = rng w.
Proof. munfold. by intros [= <-]. Qed.

Lemma write_in_place_run k t (w w2 : world T R) l :
  ndata w !! k = Some l →
  write_in_place k t w = (Ok (), w2) →
  heap w2 = <[l := t]> (heap w) ∧ ndata w2 = ndata w ∧ rng w2 = rng w.
Proof. unfold write_in_place. intros ->. by intros [= <-]. Qed.

(** C9 (as amended). EglGCNLayer.__init__ makes self.norm a second name
    for the tensor object g.ndata['norm'] is bound to (no copy is made),
    and every forward reads that object. Binding the key 'norm' to
    another tensor afterwards leaves the output of EglGCNLayer.forward as
    it was, while GCNLayer.forward computes with the tensor the key is
    bound to when it is called. Overwriting the tensor object in place
    changes what both compute with. *)
Theorem EglGCNLayer_norm_is_a_reference :
  (∀ g i o a p b (w w1 : world T R) (le : EglGCNLayer.t T R),
     EglGCNLayer.init g i o a p b w = (Ok le, w1) →
     ndata w !! "norm" = Some (EglGCNLayer.norm le)
     ∧ heap w1 = heap w ∧ ndata w1 = ndata w)
  ∧ (∀ (le : EglGCNLayer.t T R) h (w : world T R),
     (EglGCNLayer.forward le h w).1
     = egl_composition le (heap w !!! EglGCNLayer.norm le) h (rng w))
  ∧ (∀ (le : EglGCNLayer.t T R) h (w w2 : world T R) t,
     EglGCNLayer.norm le < length (heap w) →
     ndata_setitem "norm" t w = (Ok (), w2) →
     (EglGCNLayer.forward le h w2).1 = (EglGCNLayer.forward le h w).1)
  ∧ (∀ (lg : GCNLayer.t T R) h (w w2 : world T R) t,
     ndata_setitem "norm" t w = (Ok (), w2) →
     (GCNLayer.forward lg h w2).1 = gcn_composition lg t h (rng w))
  ∧ (∀ (le : EglGCNLayer.t T R) h (w w2 : world T R) t,
     ndata w !! "norm" = Some (EglGCNLayer.norm le) →
     EglGCNLayer.norm le < length (heap w) →
     write_in_place "norm" t w = (Ok (), w2) →
     (EglGCNLayer.forward le h w2).1 = egl_composition le t h (rng w))
  ∧ (∀ (lg : GCNLayer.t T R) h (w w2 : world T R) t l,
     ndata w !! "norm" = Some l → l < length (heap w) →
     write_in_place "norm" t w = (Ok (), w2) →
     (GCNLayer.forward lg h w2).1 = gcn_composition lg t h (rng w)).
Proof.
  split; [|split; [|split; [|split; [|split]]]].
  - intros g i o a p b w w1 le Hrun.
    by destruct (EglGCNLayer_init_attrs _ _ _ _ _ _ _ _ _ Hrun) as (_ & _ & _ & ? & ? & ?).
  - intros le h w. apply EglGCNLayer_forward_result.
  - intros le h w w2 t Hlt Hset.
    apply ndata_setitem_run in Hset as (Hh & _ & Hr).
    rewrite !EglGCNLayer_forward_result, Hh, Hr.
    by rewrite lookup_total_app_l.
  - intros lg h w w2 t Hset.
    apply ndata_setitem_run in Hset as (Hh & Hn & Hr).
    rewrite <- Hr. apply GCNLayer_forward_result with (l := length (heap w)).
    + rewrite Hn. apply lookup_insert_eq.
    + rewrite Hh. by apply list_lookup_middle.
  - intros le h w w2 t Hk Hlt Hw.
    apply (write_in_place_run _ _ _ _ _ Hk) in Hw as (Hh & _ & Hr).
    rewrite EglGCNLayer_forward_result, Hh, Hr.
    by rewrite list_lookup_total_insert_eq.
  - intros lg h w w2 t l Hk Hlt Hw.
    apply (write_in_place_run _ _ _ _ _ Hk) in Hw as (Hh & Hn & Hr).
    rewrite <- Hr. apply GCNLayer_forward_result with (l := l).
    + by rewrite Hn.
    + rewrite Hh. by apply list_lookup_insert_eq.
Qed.
End NormReference.


(** * The model at work on the concrete library *)

Lemma demo_uniform_in_bounds : @uniform_in_bounds Q nat Demo.Q_scalar Demo.Q_extern.
Proof.
  intros lo hi n s xs s'. simpl. unfold Demo.uniform.
  destruct (Qle_bool lo hi) eqn:Hle; [|done]. intros [= <- _].
  apply Forall_replicate. split; [apply Qle_refl|by apply Qle_bool_iff].
Qed.

Example GCNLayer_forward_demo :
  (GCNLayer.forward Demo.layer3 Demo.feats3 Demo.w0).1 = Ok Demo.out3.
Proof. vm_compute. reflexivity. Qed.

Example EglGCNLayer_forward_demo :
  (EglGCNLayer.forward Demo.egl_layer3 Demo.feats3 Demo.w0).1 = Ok Demo.out3.
Proof. vm_compute. reflexivity. Qed.

Lemma GCNLayer_forward_composition_witness :
  ndata Demo.w0 !! "norm" = Some 0 ∧ heap Demo.w0 !! 0 = Some Demo.norm3
  ∧ (GCNLayer.forward Demo.layer3 Demo.feats3 Demo.w0).1
    = gcn_composition Demo.layer3 Demo.norm3 Demo.feats3 0.
Proof.
  split; [reflexivity|]. split; [reflexivity|].
  exact (proj1 (GCNLayer_forward_composition Demo.layer3 Demo.feats3 Demo.w0 0
                  Demo.norm3 eq_refl eq_refl)).
Defined.

Lemma update_all_sums_in_neighbours_witness :
  ndata Demo.w_h !! "h" = Some 1 ∧ heap Demo.w_h !! 1 = Some Demo.feats3
  ∧ ∃ w' l' hpost,
      update_all Demo.g3 "h" "h" Demo.w_h = (Ok (), w')
      ∧ ndata w' !! "h" = Some l' ∧ heap w' !! l' = Some hpost
      ∧ length hpost = 3
      ∧ ∀ v, v < 3 →
          hpost !! v
          = Some (foldl vadd (zeros 2) ((λ u, Demo.feats3 !!! u) <$> innbs Demo.g3 v))
          ∧ (innbs Demo.g3 v = [] → hpost !! v = Some (zeros 2)).
Proof.
  split; [reflexivity|]. split; [reflexivity|].
  exact (update_all_sums_in_neighbours Demo.g3 Demo.w_h 1 Demo.feats3 eq_refl eq_refl).
Defined.

Lemma GCNLayer_forward_frame_witness :
  GCNLayer.forward Demo.layer3 Demo.feats3 Demo.w0
  = (Ok Demo.out3, (GCNLayer.forward Demo.layer3 Demo.feats3 Demo.w0).2)
  ∧ ndata (GCNLayer.forward Demo.layer3 Demo.feats3 Demo.w0).2 !! "h" = None
  ∧ ndata (GCNLayer.forward Demo.layer3 Demo.feats3 Demo.w0).2 !! "norm" = Some 0.
Proof.
  assert (Hrun : GCNLayer.forward Demo.layer3 Demo.feats3 Demo.w0
                 = (Ok Demo.out3, (GCNLayer.forward Demo.layer3 Demo.feats3 Demo.w0).2))
    by (vm_compute; reflexivity).
  split; [exact Hrun|].
  destruct (GCNLayer_forward_frame _ _ _ _ _ Hrun) as (Hh & Hn & _).
  split; [exact Hh|exact Hn].
Defined.

(** A key 'h' that was bound before the call is gone after it: the store
    is not as the call found it. *)
Lemma forward_drops_a_bound_h :
  ndata Demo.w_h !! "h" = Some 1
  ∧ (GCNLayer.forward Demo.layer3 Demo.feats3 Demo.w_h).1 = Ok Demo.out3
  ∧ ndata (GCNLayer.forward Demo.layer3 Demo.feats3 Demo.w_h).2 !! "h" = None
  ∧ ndata (GCNLayer.forward Demo.layer3 Demo.feats3 Demo.w_h).2 ≠ ndata Demo.w_h.
Proof.
  split; [reflexivity|]. split; [by vm_compute|].
  assert (Hh : ndata (GCNLayer.forward Demo.layer3 Demo.feats3 Demo.w_h).2 !! "h" = None)
    by (by vm_compute).
  split; [exact Hh|]. intros Heq. rewrite Heq in Hh. discriminate Hh.
Qed.





Lemma reset_parameters_within_stdv_witness :
  GCNLayer.init Demo.g3 2 4 None 0%Q true Demo.w0
  = (Ok Demo.layer_2_4, (GCNLayer.init Demo.g3 2 4 None 0%Q true Demo.w0).2)
  ∧ t_size1 (GCNLayer.weight Demo.layer_2_4) = 4
  ∧ Forall (Forall (within (1 # 2)%Q)) (t_rows (GCNLayer.weight Demo.layer_2_4))
  ∧ ∀ bv, GCNLayer.bias Demo.layer_2_4 = Some bv → Forall (within (1 # 2)%Q) bv.
Proof.
  assert (Hrun : GCNLayer.init Demo.g3 2 4 None 0%Q true Demo.w0
                 = (Ok Demo.layer_2_4,
                    (GCNLayer.init Demo.g3 2 4 None 0%Q true Demo.w0).2))
    by (vm_compute; reflexivity).
  split; [exact Hrun|].
  destruct (proj1 (proj2 (proj2 (reset_parameters_within_stdv demo_uniform_in_bounds)))
              _ _ _ _ _ _ _ _ _ Hrun) as (Hs & Hw & Hb & _).
  split; [exact Hs|]. split; [exact Hw|exact Hb].
Defined.

(** GCNLayer(g, 2, 0, None, 0.) raises ZeroDivisionError, and no library
    call of the constructor failed. *)
Lemma constructor_raises_by_itself :
  (GCNLayer.init Demo.g3 2 0 None 0%Q true Demo.w0).1 = Raise ZeroDivisionError
  ∧ new_events Demo.w0 (GCNLayer.init Demo.g3 2 0 None 0%Q true Demo.w0).2
    = [Call "torch.Tensor"; Call "torch.Tensor"; Call "math.sqrt"]
  ∧ ¬ disciplined no_own_exception
        (GCNLayer.init Demo.g3 2 0 None 0%Q true : M Q nat _).
Proof.
  split; [by vm_compute|]. split; [by vm_compute|].
  intros Hd. destruct (Hd Demo.w0) as (evs & Ht & Ho).
  assert (Hevs : evs = [Call "torch.Tensor"; Call "torch.Tensor"; Call "math.sqrt"]).
  { vm_compute in Ht. by symmetry. }
  assert (Hr : (GCNLayer.init Demo.g3 2 0 None 0%Q true Demo.w0).1
               = Raise ZeroDivisionError) by (by vm_compute).
  rewrite Hr in Ho. subst evs. inversion Ho as [| e lib evs Hc He Hl | e evs Hown Hc]; subst.
  - apply (f_equal (λ l, last l)) in Hl. rewrite last_snoc in Hl. discriminate Hl.
  - done.
Qed.

Lemma GCN_init_layers_witness :
  (1 ≤ 2)%Z
  ∧ ∃ self w',
      GCN.init Demo.g3 2 4 1 2%Z (Some Demo.relu) (1 # 2)%Q Demo.w0 = (Ok self, w')
      ∧ length (GCN.layers self) = 3.
Proof.
  split; [done|].
  destruct (GCN.init Demo.g3 2 4 1 2%Z (Some Demo.relu) (1 # 2)%Q Demo.w0)
    as [[self|e] w'] eqn:Hrun; [|vm_compute in Hrun; discriminate Hrun].
  exists self, w'. split; [reflexivity|].
  destruct (proj1 (@GCN_init_layers Q nat _ _) _ _ _ _ _ _ _ _ _ _
              (ltac:(done) : (1 ≤ 2)%Z) Hrun)
    as (l0 & hidden & ll & _ & Hlen & _).
  exact Hlen.
Defined.

Lemma EglGCNLayer_norm_is_a_reference_witness :
  0 < length (heap Demo.w0)
  ∧ (EglGCNLayer.forward Demo.egl_layer3 Demo.feats3
       (ndata_setitem "norm" Demo.norm3' Demo.w0).2).1
    = (EglGCNLayer.forward Demo.egl_layer3 Demo.feats3 Demo.w0).1
  ∧ (GCNLayer.forward Demo.layer3 Demo.feats3
       (ndata_setitem "norm" Demo.norm3' Demo.w0).2).1
    = gcn_composition Demo.layer3 Demo.norm3' Demo.feats3 0.
Proof.
  assert (Hlt : 0 < length (heap Demo.w0)) by (simpl; lia).
  assert (Hset : ndata_setitem "norm" Demo.norm3' Demo.w0
                 = (Ok (), (ndata_setitem "norm" Demo.norm3' Demo.w0).2))
    by reflexivity.
  split; [exact Hlt|]. split.
  - exact (proj1 (proj2 (proj2 (@EglGCNLayer_norm_is_a_reference Q nat _ _)))
             Demo.egl_layer3 Demo.feats3 _ _ _ Hlt Hset).
  - exact (proj1 (proj2 (proj2 (proj2 (@EglGCNLayer_norm_is_a_reference Q nat _ _))))
             Demo.layer3 Demo.feats3 _ _ _ Hset).
Defined.

(** A layer built while g.ndata['norm'] was [norm3]; afterwards the tensor
    object is overwritten in place, the key stays bound to it:
    EglGCNLayer.forward returns something else. *)
Lemma in_place_change_reaches_EglGCNLayer :
  EglGCNLayer.init Demo.g3 2 4 None 0%Q true Demo.w0
  = (Ok Demo.egl_layer_2_4, (EglGCNLayer.init Demo.g3 2 4 None 0%Q true Demo.w0).2)
  ∧ let w1 := (EglGCNLayer.init Demo.g3 2 4 None 0%Q true Demo.w0).2 in
    let w2 := (write_in_place "norm" Demo.norm3' w1).2 in
    (write_in_place "norm" Demo.norm3' w1).1 = Ok ()
    ∧ ndata w2 = ndata w1 ∧ rng w2 = rng w1
    ∧ (EglGCNLayer.forward Demo.egl_layer_2_4 Demo.feats3 w1).1
      = Ok [[-1 # 2; -1 # 2; -1 # 2; -1 # 2]; [-7 # 2; -7 # 2; -7 # 2; -7 # 2];
            [-26; -26; -26; -26]]%Q
    ∧ (EglGCNLayer.forward Demo.egl_layer_2_4 Demo.feats3 w2).1
      = Ok [[-1 # 2; -1 # 2; -1 # 2; -1 # 2]; [-13 # 2; -13 # 2; -13 # 2; -13 # 2];
            [-61 # 2; -61 # 2; -61 # 2; -61 # 2]]%Q
    ∧ (EglGCNLayer.forward Demo.egl_layer_2_4 Demo.feats3 w2).1
      ≠ (EglGCNLayer.forward Demo.egl_layer_2_4 Demo.feats3 w1).1.
Proof.
  split; [by vm_compute|]. cbv zeta.
  split; [by vm_compute|]. split; [by vm_compute|]. split; [by vm_compute|].
  split; [by vm_compute|]. split; [by vm_compute|].
  vm_compute. discriminate.
Qed.

(** * Further properties of the methods *)

Section Draws.
Context {T R : Type} `{Scalar T} `{Extern T R}.

Lemma GCNLayer_init_draws g i o a p b (w : world T R) :
  (GCNLayer.init g i o a p b w).1
  = match (draw_parameters i o p b (rng w)).1 with
    | Ok (wt, bs, d) => Ok (GCNLayer.Build g wt bs a d)
    | Raise e => Raise e
    end
  ∧ rng (GCNLayer.init g i o a p b w).2 = (draw_parameters i o p b (rng w)).2
  ∧ heap (GCNLayer.init g i o a p b w).2 = heap w
  ∧ ndata (GCNLayer.init g i o a p b w).2 = ndata w.
Proof.
  unfold GCNLayer.init, GCNLayer.reset_parameters, new_param2, new_param1, make_dropout,
    stdv_of, fill_uniform, sample, draw_parameters, draw_dropout.
  munfold. unfold zeros. simpl. rewrite ?length_replicate.
  destruct b; simpl.
  - destruct (fis_zero p); simpl.
    + destruct (fis_zero (fsqrt_int o)); simpl; [done|].
      destruct (uniform_ _ _ (i * o) (rng w)) as [[wd|e] s1]; simpl; [|done].
      rewrite ?length_replicate.
      destruct (uniform_ _ _ o s1) as [[bd|e] s2]; simpl; done.
    + destruct (nn_Dropout_init p) as [[]|e]; simpl; [|done].
      destruct (fis_zero (fsqrt_int o)); simpl; [done|].
      destruct (uniform_ _ _ (i * o) (rng w)) as [[wd|e] s1]; simpl; [|done].
      rewrite ?length_replicate.
      destruct (uniform_ _ _ o s1) as [[bd|e] s2]; simpl; done.
  - destruct (fis_zero p); simpl.
    + destruct (fis_zero (fsqrt_int o)); simpl; [done|].
      destruct (uniform_ _ _ (i * o) (rng w)) as [[wd|e] s1]; simpl; done.
    + destruct (nn_Dropout_init p) as [[]|e]; simpl; [|done].
      destruct (fis_zero (fsqrt_int o)); simpl; [done|].
      destruct (uniform_ _ _ (i * o) (rng w)) as [[wd|e] s1]; simpl; done.
Qed.

Lemma EglGCNLayer_init_draws g i o a p b (w : world T R) l :
  ndata w !! "norm" = Some l →
  (EglGCNLayer.init g i o a p b w).1
  = match (draw_parameters i o p b (rng w)).1 with
    | Ok (wt, bs, d) => Ok (EglGCNLayer.Build g l wt bs a d)
    | Raise e => Raise e
    end
  ∧ rng (EglGCNLayer.init g i o a p b w).2 = (draw_parameters i o p b (rng w)).2
  ∧ heap (EglGCNLayer.init g i o a p b w).2 = heap w
  ∧ ndata (EglGCNLayer.init g i o a p b w).2 = ndata w.
Proof.
  intros Hk.
  unfold EglGCNLayer.init, EglGCNLayer.reset_parameters, new_param2, new_param1,
    make_dropout, stdv_of, fill_uniform, sample, draw_parameters, draw_dropout.
  munfold. unfold zeros. simpl. rewrite Hk. simpl. rewrite ?length_replicate.
  destruct b; simpl.
  - destruct (fis_zero p); simpl.
    + destruct (fis_zero (fsqrt_int o)); simpl; [done|].
      destruct (uniform_ _ _ (i * o) (rng w)) as [[wd|e] s1]; simpl; [|done].
      rewrite ?length_replicate.
      destruct (uniform_ _ _ o s1) as [[bd|e] s2]; simpl; done.
    + destruct (nn_Dropout_init p) as [[]|e]; simpl; [|done].
      destruct (fis_zero (fsqrt_int o)); simpl; [done|].
      destruct (uniform_ _ _ (i * o) (rng w)) as [[wd|e] s1]; simpl; [|done].
      rewrite ?length_replicate.
      destruct (uniform_ _ _ o s1) as [[bd|e] s2]; simpl; done.
  - destruct (fis_zero p); simpl.
    + destruct (fis_zero (fsqrt_int o)); simpl; [done|].
      destruct (uniform_ _ _ (i * o) (rng w)) as [[wd|e] s1]; simpl; done.
    + destruct (nn_Dropout_init p) as [[]|e]; simpl; [|done].
      destruct (fis_zero (fsqrt_int o)); simpl; [done|].
      destruct (uniform_ _ _ (i * o) (rng w)) as [[wd|e] s1]; simpl; done.
Qed.

Lemma EglGCNLayer_init_no_norm g i o a p b (w : world T R) :
  ndata w !! "norm" = None →
  EglGCNLayer.init g i o a p b w
  = (Raise (KeyError "norm"), logs [Failed "ndata.__getitem__" (KeyError "norm")] w).
Proof.
  intros Hk. unfold EglGCNLayer.init. munfold. simpl. by rewrite Hk.
Qed.
End Draws.

Section ConstructorTheorems.
Context {T R : Type} `{Scalar T} `{Extern T R}.

(** X2. EglGCNLayer.__init__ reads g.ndata['norm'] first: without that key
    it raises KeyError('norm') before it allocates or samples anything,
    and so does EglGCN.__init__. *)
Theorem EglGCNLayer_init_needs_norm g i o a p b (w : world T R) :
  ndata w !! "norm" = None →
  (EglGCNLayer.init g i o a p b w).1 = Raise (KeyError "norm")
  ∧ new_events w (EglGCNLayer.init g i o a p b w).2
    = [Failed "ndata.__getitem__" (KeyError "norm")]
  ∧ rng (EglGCNLayer.init g i o a p b w).2 = rng w
  ∧ heap (EglGCNLayer.init g i o a p b w).2 = heap w
  ∧ ndata (EglGCNLayer.init g i o a p b w).2 = ndata w
  ∧ ∀ i' n_hidden n_classes n_layers,
      (EglGCN.init g i' n_hidden n_classes n_layers a p w).1 = Raise (KeyError "norm").
Proof.
  intros Hk. rewrite EglGCNLayer_init_no_norm by done. simpl.
  repeat split; try done.
  - by apply new_events_app.
  - intros i' hid cls n. unfold EglGCN.init. rewrite bind_run.
    by rewrite EglGCNLayer_init_no_norm.
Qed.

(** X4. From the same random state and the same arguments GCNLayer.__init__
    and EglGCNLayer.__init__ (given 'norm') end alike: the same weight,
    bias, dropout attribute and activation, or the same exception, and
    the same random state afterwards. *)
Theorem layer_constructors_draw_alike g i o a p b (w1 w2 : world T R) l :
  rng w1 = rng w2 → ndata w2 !! "norm" = Some l →
  (∀ lg, (GCNLayer.init g i o a p b w1).1 = Ok lg →
     ∃ le, (EglGCNLayer.init g i o a p b w2).1 = Ok le
       ∧ EglGCNLayer.weight le = GCNLayer.weight lg
       ∧ EglGCNLayer.bias le = GCNLayer.bias lg
       ∧ EglGCNLayer.dropout le = GCNLayer.dropout lg
       ∧ EglGCNLayer.activation le = GCNLayer.activation lg
       ∧ EglGCNLayer.g le = GCNLayer.g lg
       ∧ EglGCNLayer.norm le = l)
  ∧ (∀ e, (GCNLayer.init g i o a p b w1).1 = Raise e →
          (EglGCNLayer.init g i o a p b w2).1 = Raise e)
  ∧ rng (EglGCNLayer.init g i o a p b w2).2 = rng (GCNLayer.init g i o a p b w1).2.
Proof.
  intros Hr Hk.
  destruct (GCNLayer_init_draws g i o a p b w1) as (E1 & R1 & _).
  destruct (EglGCNLayer_init_draws g i o a p b w2 l Hk) as (E2 & R2 & _).
  rewrite E1, E2, R1, R2, Hr.
  destruct (draw_parameters i o p b (rng w2)) as [[[[wt bs] d]|e] s]; simpl.
  - split; [|split; [done|done]]. intros lg [= <-]. by eexists.
  - split; [done|]. split; [|done]. by intros e' [= <-].
Qed.

(** X5. When math.sqrt(out_feats) is zero and the dropout argument is
    accepted, both layer constructors raise ZeroDivisionError and no
    random number has been drawn; a GCN whose n_hidden is such fails in
    its input layer, whatever the other arguments. *)
Theorem layer_constructor_zero_out_feats g i o a p b (w : world T R) :
  fis_zero (fsqrt_int o) = true →
  (fis_zero p = true ∨ nn_Dropout_init p = Ok ()) →
  (GCNLayer.init g i o a p b w).1 = Raise ZeroDivisionError
  ∧ rng (GCNLayer.init g i o a p b w).2 = rng w
  ∧ (∀ l, ndata w !! "norm" = Some l →
       (EglGCNLayer.init g i o a p b w).1 = Raise ZeroDivisionError
       ∧ rng (EglGCNLayer.init g i o a p b w).2 = rng w)
  ∧ ∀ i' n_classes n_layers a' p',
      (GCN.init g i' o n_classes n_layers a' p' w).1 = Raise ZeroDivisionError.
Proof.
  intros Hz Hp.
  assert (Hdraw : ∀ i0 q b0 s, (fis_zero q = true ∨ nn_Dropout_init q = Ok ()) →
            draw_parameters i0 o q b0 s = (Raise ZeroDivisionError, s)).
  { intros i0 q b0 s Hq. unfold draw_parameters, draw_dropout.
    destruct Hq as [-> | Hq].
    - by rewrite Hz.
    - destruct (fis_zero q); rewrite ?Hq, Hz; done. }
  destruct (GCNLayer_init_draws g i o a p b w) as (E1 & R1 & _).
  rewrite E1, R1, Hdraw by done. simpl. split; [done|]. split; [done|]. split.
  - intros l Hk. destruct (EglGCNLayer_init_draws g i o a p b w l Hk) as (E2 & R2 & _).
    by rewrite E2, R2, Hdraw.
  - intros i' cls n a' p'. unfold GCN.init. rewrite bind_run.
    destruct (GCNLayer_init_draws g i' o a' fzero true w) as (E3 & _).
    rewrite Hdraw in E3 by (left; apply fis_zero_fzero). simpl in E3.
    destruct (GCNLayer.init g i' o a' fzero true w) as [[l0|e0] w1]; simpl in *; congruence.
Qed.
End ConstructorTheorems.


Section Frames.
Context {T R : Type} `{Scalar T} `{Extern T R}.

Lemma keeps_store_ret {A} (a : A) : keeps_store (mret a : M T R A).
Proof. by intros w. Qed.

Lemma keeps_store_bind {A B} (m : M T R A) (k : A → M T R B) :
  keeps_store m → (∀ a, keeps_store (k a)) → keeps_store (m ≫= k).
Proof.
  intros Hm Hk w. rewrite bind_run. destruct (Hm w) as [Hh Hn].
  destruct (m w) as [[a|e] w1]; simpl in *; [|done].
  destruct (Hk a w1) as [Hh' Hn']. split; congruence.
Qed.

Lemma keeps_store_call {A} lib (m : M T R A) : keeps_store m → keeps_store (call lib m).
Proof.
  intros Hm w. unfold call. destruct (Hm w) as [Hh Hn].
  by destruct (m w) as [[a|e] w1].
Qed.

Lemma keeps_store_arith {A} op (r : res A) : keeps_store (arith op r : M T R A).
Proof. intros w. unfold arith. by destruct r. Qed.

Lemma keeps_store_tick ev : keeps_store (tick ev : M T R unit).
Proof. by intros w. Qed.

Lemma keeps_store_lift {A} (r : res A) : keeps_store (lift r : M T R A).
Proof. by intros w. Qed.

Lemma keeps_store_deref l : keeps_store (deref l : M T R _).
Proof. by intros w. Qed.

Lemma keeps_store_run_dropout p h : keeps_store (run_dropout p h : M T R _).
Proof. intros w. unfold run_dropout. by destruct (nn_Dropout_call p h (rng w)). Qed.

Lemma rng_blind_ret {A} (a : A) : rng_blind (mret a : M T R A).
Proof. by intros w s. Qed.

Lemma rng_blind_bind {A B} (m : M T R A) (k : A → M T R B) :
  rng_blind m → (∀ a, rng_blind (k a)) → rng_blind (m ≫= k).
Proof.
  intros Hm Hk w s. rewrite !bind_run, Hm.
  destruct (m w) as [[a|e] w1]; simpl; [|done]. apply Hk.
Qed.

Lemma rng_blind_call {A} lib (m : M T R A) : rng_blind m → rng_blind (call lib m).
Proof.
  intros Hm w s. unfold call. rewrite Hm. by destruct (m w) as [[a|e] w1].
Qed.

Lemma rng_blind_arith {A} op (r : res A) : rng_blind (arith op r : M T R A).
Proof. intros w s. unfold arith. by destruct r. Qed.

Lemma rng_blind_tick ev : rng_blind (tick ev : M T R unit).
Proof. by intros w s. Qed.

Lemma rng_blind_lift {A} (r : res A) : rng_blind (lift r : M T R A).
Proof. by intros w s. Qed.

Lemma rng_blind_deref l : rng_blind (deref l : M T R _).
Proof. by intros w s. Qed.

Lemma rng_blind_lookup_key k : rng_blind (lookup_key k : M T R _).
Proof. intros w s. unfold lookup_key. simpl. by destruct (ndata w !! k). Qed.

Lemma rng_blind_store_key k t : rng_blind (store_key k t : M T R _).
Proof. by intros w s. Qed.

Lemma rng_blind_remove_key k : rng_blind (remove_key k : M T R _).
Proof. intros w s. unfold remove_key. simpl. by destruct (ndata w !! k). Qed.

Lemma rng_blind_send_and_recv g src out : rng_blind (send_and_recv g src out : M T R _).
Proof.
  intros w s. unfold send_and_recv, lookup_key, deref, store_key, mbind, M_bind. simpl.
  by destruct (ndata w !! src).
Qed.

Lemma keeps_store_run_activation f h : keeps_store (run_activation f h : M T R _).
Proof. intros w. unfold run_activation. by destruct (f h (rng w)). Qed.

Lemma keeps_store_forM {A B} (f : A → M T R B) l :
  (∀ x, keeps_store (f x)) → keeps_store (forM f l).
Proof.
  intros Hf. induction l as [|x l IH]; simpl; [apply keeps_store_ret|].
  apply keeps_store_bind; [done|intros y].
  apply keeps_store_bind; [done|intros ys]. apply keeps_store_ret.
Qed.

Lemma rng_blind_run_activation f h :
  draws_nothing (Some f) → rng_blind (run_activation f h : M T R _).
Proof.
  intros Hf w s. unfold run_activation. simpl.
  destruct (Hf h s (rng w)) as [E1 E2]. destruct (Hf h (rng w) (rng w)) as [_ E3].
  destruct (f h s) as [r1 s1], (f h (rng w)) as [r2 s2]. simpl in *. by subst.
Qed.

Lemma rng_blind_forM {A B} (f : A → M T R B) l :
  (∀ x, rng_blind (f x)) → rng_blind (forM f l).
Proof.
  intros Hf. induction l as [|x l IH]; simpl; [apply rng_blind_ret|].
  apply rng_blind_bind; [done|intros y].
  apply rng_blind_bind; [done|intros ys]. apply rng_blind_ret.
Qed.

Lemma ndata_free_ret {A} (a : A) : ndata_free (mret a : M T R A).
Proof. by intros w1 w2 Hh Hr. Qed.

Lemma ndata_free_bind {A B} (m : M T R A) (k : A → M T R B) :
  ndata_free m → (∀ a, ndata_free (k a)) → ndata_free (m ≫= k).
Proof.
  intros Hm Hk w1 w2 Hh Hr. rewrite !bind_run.
  destruct (Hm w1 w2 Hh Hr) as (E1 & E2 & E3 & E4).
  destruct (m w1) as [[a1|e1] w1'], (m w2) as [[a2|e2] w2']; simpl in *;
    try discriminate; injection E1 as ->; [|done].
  destruct (Hk a2 w1' w2') as (F1 & F2 & F3 & F4); [congruence|done|].
  repeat split; congruence.
Qed.

Lemma ndata_free_call {A} lib (m : M T R A) : ndata_free m → ndata_free (call lib m).
Proof.
  intros Hm w1 w2 Hh Hr. unfold call.
  destruct (Hm w1 w2 Hh Hr) as (E1 & E2 & E3 & E4).
  destruct (m w1) as [[a1|e1] w1'], (m w2) as [[a2|e2] w2']; simpl in *;
    try discriminate; by injection E1 as ->.
Qed.

Lemma ndata_free_arith {A} op (r : res A) : ndata_free (arith op r : M T R A).
Proof. intros w1 w2 Hh Hr. unfold arith. by destruct r. Qed.

Lemma ndata_free_lift {A} (r : res A) : ndata_free (lift r : M T R A).
Proof. by intros w1 w2 Hh Hr. Qed.

Lemma ndata_free_deref l : ndata_free (deref l : M T R _).
Proof. intros w1 w2 Hh Hr. unfold deref. simpl. by rewrite Hh. Qed.

Lemma ndata_free_run_dropout p h : ndata_free (run_dropout p h : M T R _).
Proof.
  intros w1 w2 Hh Hr. unfold run_dropout. rewrite Hr.
  by destruct (nn_Dropout_call p h (rng w2)).
Qed.

Lemma ndata_free_run_activation f h : ndata_free (run_activation f h : M T R _).
Proof.
  intros w1 w2 Hh Hr. unfold run_activation. rewrite Hr.
  by destruct (f h (rng w2)).
Qed.

Lemma ndata_free_forM {A B} (f : A → M T R B) l :
  (∀ x, ndata_free (f x)) → ndata_free (forM f l).
Proof.
  intros Hf. induction l as [|x l IH]; simpl; [apply ndata_free_ret|].
  apply ndata_free_bind; [done|intros y].
  apply ndata_free_bind; [done|intros ys]. apply ndata_free_ret.
Qed.

Lemma ndata_free_blind {A} (m : M T R A) : ndata_free m → ndata_blind m.
Proof. intros Hm w1 w2 Hh Hr. by destruct (Hm w1 w2 Hh Hr) as (? & ? & _). Qed.

Lemma with_rng_same (w : world T R) : with_rng (rng w) w = w.
Proof. by destruct w. Qed.

Lemma rng_blind_keeps_rng {A} (m : M T R A) w : rng_blind m → rng (m w).2 = rng w.
Proof.
  intros Hm. specialize (Hm w (rng w)). rewrite with_rng_same in Hm.
  destruct (m w) as [r w1]. simpl in *. by injection Hm as ->.
Qed.
End Frames.

Create HintDb frames.
#[export] Hint Resolve keeps_store_ret keeps_store_call keeps_store_arith
  keeps_store_tick keeps_store_lift keeps_store_deref keeps_store_run_dropout
  keeps_store_run_activation
  rng_blind_ret rng_blind_call rng_blind_arith rng_blind_tick rng_blind_lift
  rng_blind_deref rng_blind_lookup_key rng_blind_store_key rng_blind_remove_key
  rng_blind_send_and_recv rng_blind_run_activation
  ndata_free_ret ndata_free_call ndata_free_arith ndata_free_lift ndata_free_deref
  ndata_free_run_dropout ndata_free_run_activation : frames.

Ltac frames :=
  repeat first
    [ apply keeps_store_bind; [|intros ?]
    | apply rng_blind_bind; [|intros ?]
    | apply ndata_free_bind; [|intros ?]
    | apply keeps_store_forM; intros ?
    | apply rng_blind_forM; intros ?
    | apply ndata_free_forM; intros ?
    | solve [eauto with frames] ].

Section ForwardFrames.
Context {T R : Type} `{Scalar T} `{Extern T R}.

Lemma keeps_store_apply_dropout d h : keeps_store (apply_dropout d h : M T R _).
Proof. destruct d; unfold apply_dropout; frames. Qed.

Lemma keeps_store_add_bias b h : keeps_store (add_bias b h : M T R _).
Proof. destruct b; unfold add_bias; frames. Qed.

Lemma keeps_store_apply_activation a h : keeps_store (apply_activation a h : M T R _).
Proof. destruct a; unfold apply_activation; frames. Qed.

Lemma rng_blind_add_bias b h : rng_blind (add_bias b h : M T R _).
Proof. destruct b; unfold add_bias; frames. Qed.

Lemma rng_blind_apply_activation a h :
  draws_nothing a → rng_blind (apply_activation a h : M T R _).
Proof. intros Ha. destruct a; unfold apply_activation; frames. Qed.

Lemma ndata_free_apply_dropout d h : ndata_free (apply_dropout d h : M T R _).
Proof. destruct d; unfold apply_dropout; frames. Qed.

Lemma ndata_free_add_bias b h : ndata_free (add_bias b h : M T R _).
Proof. destruct b; unfold add_bias; frames. Qed.

Lemma ndata_free_apply_activation a h : ndata_free (apply_activation a h : M T R _).
Proof. destruct a; unfold apply_activation; frames. Qed.

Lemma keeps_store_EglGCNLayer_forward self h :
  keeps_store (EglGCNLayer.forward self h : M T R _).
Proof.
  unfold EglGCNLayer.forward, zoom, EglGCNLayer.with_block.
  pose proof keeps_store_apply_dropout. pose proof keeps_store_add_bias.
  pose proof keeps_store_apply_activation.
  frames.
Qed.

Lemma ndata_free_EglGCNLayer_forward self h :
  ndata_free (EglGCNLayer.forward self h : M T R _).
Proof.
  unfold EglGCNLayer.forward, zoom, EglGCNLayer.with_block.
  pose proof ndata_free_apply_dropout. pose proof ndata_free_add_bias.
  pose proof ndata_free_apply_activation.
  frames.
Qed.

Lemma rng_blind_egl_after_dropout self h :
  draws_nothing (EglGCNLayer.activation self) →
  rng_blind (egl_after_dropout self h : M T R _).
Proof.
  intros Ha. unfold egl_after_dropout, zoom, EglGCNLayer.with_block.
  pose proof rng_blind_add_bias.
  assert (∀ h', rng_blind (apply_activation (EglGCNLayer.activation self) h' : M T R _))
    by (intros h'; by apply rng_blind_apply_activation).
  frames.
Qed.

Lemma rng_blind_gcn_after_dropout self h :
  draws_nothing (GCNLayer.activation self) →
  rng_blind (gcn_after_dropout self h : M T R _).
Proof.
  intros Ha.
  unfold gcn_after_dropout, ndata_getitem, ndata_setitem, update_all, ndata_pop.
  pose proof rng_blind_add_bias.
  assert (∀ h', rng_blind (apply_activation (GCNLayer.activation self) h' : M T R _))
    by (intros h'; by apply rng_blind_apply_activation).
  frames.
Qed.
End ForwardFrames.

Section ForwardEdges.
Context {T R : Type} `{Scalar T} `{Extern T R}.

Lemma gcn_after_dropout_no_norm self h (w : world T R) :
  ndata w !! "norm" = None →
  gcn_after_dropout self h w
  = match torch_mm h (t_rows (GCNLayer.weight self)) with
    | Ok _ => (Raise (KeyError "norm"),
               logs [Call "torch.mm"; Failed "ndata.__getitem__" (KeyError "norm")] w)
    | Raise e => (Raise e, logs [Failed "torch.mm" e] w)
    end.
Proof.
  intros Hk. munfold. unfold logs. simpl.
  destruct (torch_mm _ _) as [h1|e]; simpl; [|done].
  rewrite Hk. simpl. by rewrite <- app_assoc.
Qed.

(** X1. On a graph without node data 'norm' GCNLayer.forward never
    returns, and it leaves the heap and g.ndata as they were (no 'h' is
    written); once dropout
    and torch.mm are through, what it raises is KeyError('norm'). A GCN
    with at least one layer does not return either. *)
Theorem GCNLayer_forward_needs_norm (self : GCNLayer.t T R) h (w : world T R) :
  ndata w !! "norm" = None →
  (∀ out, (GCNLayer.forward self h w).1 ≠ Ok out)
  ∧ heap (GCNLayer.forward self h w).2 = heap w
  ∧ ndata (GCNLayer.forward self h w).2 = ndata w
  ∧ (∀ h0 s h1,
       dropout_stage (GCNLayer.dropout self) h (rng w) = (Ok h0, s) →
       torch_mm h0 (t_rows (GCNLayer.weight self)) = Ok h1 →
       (GCNLayer.forward self h w).1 = Raise (KeyError "norm"))
  ∧ (∀ (m : GCN.t T R) out, GCN.layers m ≠ [] → (GCN.forward m h w).1 ≠ Ok out).
Proof.
  intros Hk.
  assert (Hfwd : ∀ (l : GCNLayer.t T R) h',
            (∀ out, (GCNLayer.forward l h' w).1 ≠ Ok out)
            ∧ heap (GCNLayer.forward l h' w).2 = heap w
            ∧ ndata (GCNLayer.forward l h' w).2 = ndata w).
  { intros l h'. rewrite GCNLayer_forward_unfold, bind_run, apply_dropout_run.
    destruct (dropout_stage _ h' (rng w)) as [[h0|e] s]; simpl; [|done].
    rewrite gcn_after_dropout_no_norm by done.
    by destruct (torch_mm _ _). }
  destruct (Hfwd self h) as (Hno & Hh & Hn).
  split; [done|]. split; [done|]. split; [done|]. split.
  - intros h0 s h1 Hd Hm.
    rewrite GCNLayer_forward_unfold, bind_run, apply_dropout_run, Hd. simpl.
    rewrite gcn_after_dropout_no_norm by done. by rewrite Hm.
  - intros m out Hne. unfold GCN.forward.
    destruct (GCN.layers m) as [|l rest]; [done|]. simpl. rewrite bind_run.
    destruct (Hfwd l h) as (Hno' & _).
    destruct (GCNLayer.forward l h w) as [[h1|e] w1]; simpl in *; [by destruct (Hno' h1)|done].
Qed.

Lemma ndata_blind_EglGCNLayer_forward self h :
  ndata_blind (EglGCNLayer.forward self h : M T R _).
Proof. apply ndata_free_blind, ndata_free_EglGCNLayer_forward. Qed.

Lemma keeps_store_EglGCN_forward_loop layers h :
  keeps_store (EglGCN.forward_loop layers h : M T R _).
Proof.
  revert h. induction layers as [|l ls IH]; intros h; simpl.
  - apply keeps_store_ret.
  - apply keeps_store_bind; [apply keeps_store_EglGCNLayer_forward|done].
Qed.

Lemma ndata_free_EglGCN_forward_loop layers h :
  ndata_free (EglGCN.forward_loop layers h : M T R _).
Proof.
  revert h. induction layers as [|l ls IH]; intros h; simpl.
  - apply ndata_free_ret.
  - apply ndata_free_bind; [apply ndata_free_EglGCNLayer_forward|done].
Qed.

(** X6. EglGCNLayer.forward and EglGCN.forward do not access g.ndata: they
    leave heap and store as found, however they end, and their result
    depends on the tensors and the random state only; deleting a key of
    g.ndata, 'norm' included, after construction changes nothing. *)
Theorem EglGCNLayer_forward_leaves_ndata_alone :
  (∀ (self : EglGCNLayer.t T R) h, keeps_store (EglGCNLayer.forward self h : M T R _))
  ∧ (∀ (self : EglGCNLayer.t T R) h, ndata_blind (EglGCNLayer.forward self h : M T R _))
  ∧ (∀ (self : EglGCN.t T R) h, keeps_store (EglGCN.forward self h : M T R _))
  ∧ (∀ (self : EglGCN.t T R) h, ndata_blind (EglGCN.forward self h : M T R _))
  ∧ (∀ (self : EglGCNLayer.t T R) h k (w : world T R),
       (EglGCNLayer.forward self h (unbind_key k w)).1 = (EglGCNLayer.forward self h w).1).
Proof.
  split; [|split; [|split; [|split]]].
  - apply keeps_store_EglGCNLayer_forward.
  - apply ndata_blind_EglGCNLayer_forward.
  - intros self h. apply keeps_store_EglGCN_forward_loop.
  - intros self h. apply ndata_free_blind, ndata_free_EglGCN_forward_loop.
  - intros self h k w. by apply ndata_blind_EglGCNLayer_forward.
Qed.

(** X7. The random generator is read by dropout and by the activation
    only: a forward pass of a layer whose self.dropout is 0. and whose
    activation is None or draws no random number (GCNLayer or
    EglGCNLayer) neither reads nor advances the generator; in a world
    that differs in the random state only it ends the same way. *)
Theorem forward_without_dropout_draws_nothing :
  (∀ (self : GCNLayer.t T R) h,
     GCNLayer.dropout self = Dropout_off → draws_nothing (GCNLayer.activation self) →
     rng_blind (GCNLayer.forward self h : M T R _)
     ∧ ∀ w, rng (GCNLayer.forward self h w).2 = rng w)
  ∧ (∀ (self : EglGCNLayer.t T R) h,
     EglGCNLayer.dropout self = Dropout_off → draws_nothing (EglGCNLayer.activation self) →
     rng_blind (EglGCNLayer.forward self h : M T R _)
     ∧ ∀ w, rng (EglGCNLayer.forward self h w).2 = rng w).
Proof.
  split; intros self h Hd Ha.
  - assert (Hb : rng_blind (GCNLayer.forward self h : M T R _)).
    { rewrite GCNLayer_forward_unfold, Hd. simpl.
      apply rng_blind_bind; [apply rng_blind_ret|intros h'].
      by apply rng_blind_gcn_after_dropout. }
    split; [done|]. intros w. by apply rng_blind_keeps_rng.
  - assert (Hb : rng_blind (EglGCNLayer.forward self h : M T R _)).
    { rewrite EglGCNLayer_forward_unfold, Hd. simpl.
      apply rng_blind_bind; [apply rng_blind_ret|intros h'].
      by apply rng_blind_egl_after_dropout. }
    split; [done|]. intros w. by apply rng_blind_keeps_rng.
Qed.

(** Any run of GCNLayer.forward, returning or not, keeps the tensors
    that existed. *)
Lemma gcn_after_dropout_heap self h (w : world T R) :
  ∃ new, heap (gcn_after_dropout self h w).2 = heap w ++ new.
Proof.
  munfold. simpl.
  destruct (torch_mm _ _) as [h1|e]; simpl; [|by exists []; rewrite app_nil_r].
  destruct (ndata w !! "norm") as [l|] eqn:Hk; simpl; [|by exists []; rewrite app_nil_r].
  destruct (tmul h1 _) as [m|e]; simpl; [|by exists []; rewrite app_nil_r].
  rewrite lookup_insert_eq; simpl.
  rewrite lookup_insert_eq; simpl.
  rewrite lookup_delete_ne by done; rewrite !lookup_insert_ne by done; rewrite Hk; simpl.
  eexists [_; _]. rewrite <- app_assoc. simpl.
  destruct (tmul _ _) as [o2|e]; simpl; [|done].
  destruct (GCNLayer.bias self) as [b|]; simpl;
      [destruct (tadd_bias o2 b) as [o3|e]; simpl; [|done]|];
    (destruct (GCNLayer.activation self) as [f|]; simpl; [|done]);
    by destruct (f _ _) as [[o4|e] s4].
Qed.

Lemma GCNLayer_forward_heap self h (w : world T R) a t :
  heap w !! a = Some t → heap (GCNLayer.forward self h w).2 !! a = Some t.
Proof.
  intros Ha. rewrite GCNLayer_forward_unfold, bind_run, apply_dropout_run.
  destruct (dropout_stage _ h (rng w)) as [[h0|e] s]; simpl; [|done].
  destruct (gcn_after_dropout_heap self h0 (logs (dropout_events (GCNLayer.dropout self))
                                              (with_rng s w))) as [new ->].
  by apply lookup_app_l_Some.
Qed.

Lemma GCN_forward_loop_store layers h (w : world T R) :
  ndata (GCN.forward_loop layers h w).2 = ndata w
  ∨ ndata (GCN.forward_loop layers h w).2 = delete "h" (ndata w).
Proof.
  revert h w. induction layers as [|l ls IH]; intros h w; simpl; [by left|].
  rewrite bind_run. pose proof (GCNLayer_forward_store l h w) as Hl.
  destruct (GCNLayer.forward l h w) as [[h1|e] w1]; simpl in *; [|done].
  destruct (IH h1 w1) as [-> | ->]; [done|].
  destruct Hl as [-> | ->]; [by right|]. right. by rewrite delete_delete_eq.
Qed.

Lemma GCN_forward_loop_heap layers h (w : world T R) a t :
  heap w !! a = Some t → heap (GCN.forward_loop layers h w).2 !! a = Some t.
Proof.
  revert h w. induction layers as [|l ls IH]; intros h w Ha; simpl; [done|].
  rewrite bind_run. pose proof (GCNLayer_forward_heap l h w a t Ha) as Hl.
  destruct (GCNLayer.forward l h w) as [[h1|e] w1]; simpl in *; [|done].
  by apply IH.
Qed.

Lemma GCN_forward_loop_returns layers h (w : world T R) out w' :
  GCN.forward_loop layers h w = (Ok out, w') →
  ndata w' = (if layers is [] then ndata w else delete "h" (ndata w))
  ∧ length (heap w') = length (heap w) + 2 * length layers.
Proof.
  revert h w. induction layers as [|l ls IH]; intros h w; simpl.
  - intros [= _ <-]. split; [done|lia].
  - rewrite bind_run.
    destruct (GCNLayer.forward l h w) as [[h1|e] w1] eqn:Hl; [|done].
    apply GCNLayer_forward_effects in Hl as (m1 & m2 & Hh1 & Hn1 & _).
    intros Hrun. apply IH in Hrun as [Hn Hh].
    split.
    + rewrite Hn, Hn1. destruct ls; [done|]. by rewrite delete_delete_eq.
    + rewrite Hh, Hh1, length_app. simpl. lia.
Qed.

(** X8. Whatever GCN.forward does, returning or raising, it leaves every
    key of g.ndata other than 'h' bound as it was and every tensor that
    existed as it was. When it returns, the store is the one before
    without 'h' (the one before, for a stack without layers) and each
    layer has left two new tensors in the heap. *)
Theorem GCN_forward_store (self : GCN.t T R) h (w : world T R) :
  (∀ k, k ≠ "h" → ndata (GCN.forward self h w).2 !! k = ndata w !! k)
  ∧ (∀ a t, heap w !! a = Some t → heap (GCN.forward self h w).2 !! a = Some t)
  ∧ (∀ out w', GCN.forward self h w = (Ok out, w') →
       ndata w' = (if GCN.layers self is [] then ndata w else delete "h" (ndata w))
       ∧ length (heap w') = length (heap w) + 2 * length (GCN.layers self)
       ∧ (GCN.layers self ≠ [] → ndata w' !! "h" = None)).
Proof.
  unfold GCN.forward. split; [|split].
  - intros k Hk. destruct (GCN_forward_loop_store (GCN.layers self) h w) as [-> | ->];
      [done|by apply lookup_delete_ne].
  - intros a t. apply GCN_forward_loop_heap.
  - intros out w' Hrun. apply GCN_forward_loop_returns in Hrun as [Hn Hh].
    split; [done|]. split; [done|]. intros Hne. rewrite Hn.
    destruct (GCN.layers self); [done|]. apply lookup_delete_eq.
Qed.
End ForwardEdges.

Section StackConstructors.
Context {T R : Type} `{Scalar T} `{Extern T R}.

Lemma store_blind_bind {A B} (m : M T R A) (k : A → M T R B) :
  store_blind m → (∀ a, store_blind (k a)) → store_blind (m ≫= k).
Proof.
  intros Hm Hk w1 w2 Hr. rewrite !bind_run.
  destruct (Hm w1 w2 Hr) as [E1 E2].
  destruct (m w1) as [[a1|e1] w1'], (m w2) as [[a2|e2] w2']; simpl in *;
    try discriminate; injection E1 as ->; [by apply Hk|done].
Qed.

Lemma store_blind_GCNLayer_init g i o a p b :
  store_blind (GCNLayer.init g i o a p b : M T R _).
Proof.
  intros w1 w2 Hr.
  destruct (GCNLayer_init_draws g i o a p b w1) as (E1 & R1 & _).
  destruct (GCNLayer_init_draws g i o a p b w2) as (E2 & R2 & _).
  by rewrite E1, E2, R1, R2, Hr.
Qed.

Lemma keeps_store_GCNLayer_init g i o a p b :
  keeps_store (GCNLayer.init g i o a p b : M T R _).
Proof. intros w. by destruct (GCNLayer_init_draws g i o a p b w) as (_ & _ & ? & ?). Qed.

Lemma store_blind_GCN_append_layers n (mk : M T R (GCNLayer.t T R)) layers :
  store_blind mk → store_blind (GCN.append_layers n mk layers).
Proof.
  intros Hmk. revert layers. induction n as [|n IH]; intros layers; simpl.
  - by intros w1 w2 Hr.
  - apply store_blind_bind; [done|intros l; apply IH].
Qed.

Lemma keeps_store_GCN_append_layers n (mk : M T R (GCNLayer.t T R)) layers :
  keeps_store mk → keeps_store (GCN.append_layers n mk layers).
Proof.
  intros Hmk. revert layers. induction n as [|n IH]; intros layers; simpl.
  - apply keeps_store_ret.
  - apply keeps_store_bind; [done|intros l; apply IH].
Qed.

(** X3. GCNLayer.__init__ and GCN.__init__ neither read nor write g.ndata
    or any tensor of the graph: what they return and how far they advance
    the random generator depend on the random state only, and they leave
    heap and store as found, however they end. In particular they do not
    need 'norm'. *)
Theorem GCN_constructors_ignore_the_store :
  (∀ g i o a p b, store_blind (GCNLayer.init g i o a p b : M T R _))
  ∧ (∀ g i o a p b, keeps_store (GCNLayer.init g i o a p b : M T R _))
  ∧ (∀ g i hid cls n a p, store_blind (GCN.init g i hid cls n a p : M T R _))
  ∧ (∀ g i hid cls n a p, keeps_store (GCN.init g i hid cls n a p : M T R _))
  ∧ (∀ g i o a p b k (w : world T R),
       (GCNLayer.init g i o a p b (unbind_key k w)).1 = (GCNLayer.init g i o a p b w).1).
Proof.
  split; [|split; [|split; [|split]]].
  - apply store_blind_GCNLayer_init.
  - apply keeps_store_GCNLayer_init.
  - intros. unfold GCN.init.
    apply store_blind_bind; [apply store_blind_GCNLayer_init|intros l0].
    apply store_blind_bind;
      [apply store_blind_GCN_append_layers, store_blind_GCNLayer_init|intros ls].
    apply store_blind_bind; [apply store_blind_GCNLayer_init|intros ll].
    by intros w1 w2 Hr.
  - intros. unfold GCN.init.
    apply keeps_store_bind; [apply keeps_store_GCNLayer_init|intros l0].
    apply keeps_store_bind;
      [apply keeps_store_GCN_append_layers, keeps_store_GCNLayer_init|intros ls].
    apply keeps_store_bind; [apply keeps_store_GCNLayer_init|intros ll].
    apply keeps_store_ret.
  - intros g i o a p b k w. by apply store_blind_GCNLayer_init.
Qed.

Lemma GCNLayer_init_shape g i o a p b (w : world T R) self w' :
  GCNLayer.init g i o a p b w = (Ok self, w') →
  t_size0 (GCNLayer.weight self) = i ∧ t_size1 (GCNLayer.weight self) = o.
Proof.
  intros Hrun.
  apply GCNLayer_init_ok in Hrun as (self0 & w0 & Hreset & _ & Hi & Ho & _).
  apply GCNLayer_reset_parameters_ok in Hreset as (wd & s1 & _ & Hw & _).
  rewrite Hw. simpl. done.
Qed.

Lemma EglGCNLayer_init_shape g i o a p b (w : world T R) self w' :
  EglGCNLayer.init g i o a p b w = (Ok self, w') →
  t_size0 (EglGCNLayer.weight self) = i ∧ t_size1 (EglGCNLayer.weight self) = o
  ∧ (is_Some (EglGCNLayer.bias self) ↔ b = true).
Proof.
  intros Hrun.
  apply EglGCNLayer_init_ok in Hrun as (self0 & w0 & w1 & Hreset & _ & _ & Hi & Ho & Hb & _).
  apply EglGCNLayer_reset_parameters_ok in Hreset
    as (wd & s1 & _ & Hw & _ & _ & _ & _ & _ & _ & Hb').
  rewrite Hw. simpl. do 2 (split; [done|]).
  rewrite Hb in Hb'. destruct b.
  - destruct Hb' as (bd & s2 & _ & ->). split; [done|by eexists].
  - rewrite Hb'. split; [by intros [? ?]|done].
Qed.

(** The loops with an invariant of the world and a property of the layers. *)
Lemma GCN_append_layers_inv (I : world T R → Prop) (P : GCNLayer.t T R → Prop)
    n (mk : M T R (GCNLayer.t T R)) layers w ls w' :
  (∀ w l w', I w → mk w = (Ok l, w') → P l ∧ I w') → I w →
  GCN.append_layers n mk layers w = (Ok ls, w') →
  ∃ new, ls = layers ++ new ∧ length new = n ∧ Forall P new ∧ I w'.
Proof.
  intros Hmk. revert layers w. induction n as [|n IH]; intros layers w HI; simpl.
  - intros [= <- <-]. exists []. by rewrite app_nil_r.
  - rewrite bind_run. destruct (mk w) as [[l|e] w1] eqn:Hl; [|done].
    destruct (Hmk _ _ _ HI Hl) as [HP HI1].
    intros Hrun. apply (IH _ _ HI1) in Hrun as (new & -> & Hlen & Hall & HI').
    exists (l :: new). rewrite <- app_assoc. simpl.
    repeat split; [by rewrite Hlen| |done]. by constructor.
Qed.

Lemma EglGCN_append_layers_inv (I : world T R → Prop) (P : EglGCNLayer.t T R → Prop)
    n (mk : M T R (EglGCNLayer.t T R)) layers w ls w' :
  (∀ w l w', I w → mk w = (Ok l, w') → P l ∧ I w') → I w →
  EglGCN.append_layers n mk layers w = (Ok ls, w') →
  ∃ new, ls = layers ++ new ∧ length new = n ∧ Forall P new ∧ I w'.
Proof.
  intros Hmk. revert layers w. induction n as [|n IH]; intros layers w HI; simpl.
  - intros [= <- <-]. exists []. by rewrite app_nil_r.
  - rewrite bind_run. destruct (mk w) as [[l|e] w1] eqn:Hl; [|done].
    destruct (Hmk _ _ _ HI Hl) as [HP HI1].
    intros Hrun. apply (IH _ _ HI1) in Hrun as (new & -> & Hlen & Hall & HI').
    exists (l :: new). rewrite <- app_assoc. simpl.
    repeat split; [by rewrite Hlen| |done]. by constructor.
Qed.

(** A stack that a constructor returned, for any n_layers. *)
Lemma GCN_init_parts g i hid cls n a p (w : world T R) self w' :
  GCN.init g i hid cls n a p w = (Ok self, w') →
  ∃ l0 hidden ll,
    GCN.layers self = l0 :: hidden ++ [ll]
    ∧ length hidden = Z.to_nat (n - 1)
    ∧ built (GCNLayer.init g i hid a fzero true) l0
    ∧ Forall (built (GCNLayer.init g hid hid a p true)) hidden
    ∧ built (GCNLayer.init g hid cls None p true) ll.
Proof.
  unfold GCN.init. rewrite bind_run.
  destruct (GCNLayer.init g i hid a fzero true w) as [[l0|e] w1] eqn:Hin; [|done].
  rewrite bind_run.
  destruct (GCN.append_layers _ _ _ w1) as [[ls|e] w2] eqn:Hls; [|done].
  rewrite bind_run.
  destruct (GCNLayer.init g hid cls None p true w2) as [[ll|e] w3] eqn:Hll; [|done].
  intros [= <- <-].
  apply GCN_append_layers_ok in Hls as (hidden & -> & Hlen & Hall).
  exists l0, hidden, ll. simpl. repeat split; try done.
  - by exists w, w1.
  - by exists w2, w3.
Qed.

Lemma EglGCN_init_parts g i hid cls n a p (w : world T R) self w' :
  EglGCN.init g i hid cls n a p w = (Ok self, w') →
  ∃ l0 hidden ll,
    EglGCN.layers self = l0 :: hidden ++ [ll]
    ∧ length hidden = Z.to_nat (n - 1)
    ∧ built (EglGCNLayer.init g i hid a fzero true) l0
    ∧ Forall (built (EglGCNLayer.init g hid hid a p true)) hidden
    ∧ built (EglGCNLayer.init g hid cls None p true) ll.
Proof.
  unfold EglGCN.init. rewrite bind_run.
  destruct (EglGCNLayer.init g i hid a fzero true w) as [[l0|e] w1] eqn:Hin; [|done].
  rewrite bind_run.
  destruct (EglGCN.append_layers _ _ _ w1) as [[ls|e] w2] eqn:Hls; [|done].
  rewrite bind_run.
  destruct (EglGCNLayer.init g hid cls None p true w2) as [[ll|e] w3] eqn:Hll; [|done].
  intros [= <- <-].
  apply EglGCN_append_layers_ok in Hls as (hidden & -> & Hlen & Hall).
  exists l0, hidden, ll. simpl. repeat split; try done.
  - by exists w, w1.
  - by exists w2, w3.
Qed.

(** X9. For n_layers <= 1 (zero and negative included) GCN.__init__ and
    EglGCN.__init__ still build the input layer and the output layer: two
    layers, the first with the given activation and no dropout, the
    second with activation None and the given dropout. *)
Theorem GCN_init_few_layers :
  (∀ g i hid cls (n : Z) a p (w w' : world T R) (self : GCN.t T R),
     (n ≤ 1)%Z → GCN.init g i hid cls n a p w = (Ok self, w') →
     ∃ l0 ll,
       GCN.layers self = [l0; ll]
       ∧ GCNLayer.activation l0 = a ∧ GCNLayer.dropout l0 = Dropout_off
       ∧ GCNLayer.activation ll = None ∧ GCNLayer.dropout ll = dropout_of p)
  ∧ (∀ g i hid cls (n : Z) a p (w w' : world T R) (self : EglGCN.t T R),
     (n ≤ 1)%Z → EglGCN.init g i hid cls n a p w = (Ok self, w') →
     ∃ l0 ll,
       EglGCN.layers self = [l0; ll]
       ∧ EglGCNLayer.activation l0 = a ∧ EglGCNLayer.dropout l0 = Dropout_off
       ∧ EglGCNLayer.activation ll = None ∧ EglGCNLayer.dropout ll = dropout_of p).
Proof.
  split; intros g i hid cls n a p w w' self Hn Hrun.
  - apply GCN_init_parts in Hrun
      as (l0 & hidden & ll & Hl & Hlen & (wa & wb & H0') & _ & (wc & wd & Hll)).
    replace (Z.to_nat (n - 1)) with 0 in Hlen by lia.
    destruct hidden; [|done]. exists l0, ll.
    destruct (GCNLayer_init_attrs _ _ _ _ _ _ _ _ _ H0') as (_ & Ha0 & Hd0 & _).
    destruct (GCNLayer_init_attrs _ _ _ _ _ _ _ _ _ Hll) as (_ & Hal & Hdl & _).
    unfold dropout_of in Hd0. rewrite fis_zero_fzero in Hd0. done.
  - apply EglGCN_init_parts in Hrun
      as (l0 & hidden & ll & Hl & Hlen & (wa & wb & H0') & _ & (wc & wd & Hll)).
    replace (Z.to_nat (n - 1)) with 0 in Hlen by lia.
    destruct hidden; [|done]. exists l0, ll.
    destruct (EglGCNLayer_init_attrs _ _ _ _ _ _ _ _ _ H0') as (_ & Ha0 & Hd0 & _).
    destruct (EglGCNLayer_init_attrs _ _ _ _ _ _ _ _ _ Hll) as (_ & Hal & Hdl & _).
    unfold dropout_of in Hd0. rewrite fis_zero_fzero in Hd0. done.
Qed.

(** X10. For every n_layers, the weights of a stack that __init__ returned
    fit one another: (in_feats, n_hidden), then max(n_layers - 1, 0)
    times (n_hidden, n_hidden), then (n_hidden, n_classes); every layer
    is on the graph g and has a bias. *)
Theorem GCN_init_weight_shapes :
  (∀ g i hid cls (n : Z) a p (w w' : world T R) (self : GCN.t T R),
     GCN.init g i hid cls n a p w = (Ok self, w') →
     ∃ l0 hidden ll,
       GCN.layers self = l0 :: hidden ++ [ll]
       ∧ length hidden = Z.to_nat (n - 1)
       ∧ t_size0 (GCNLayer.weight l0) = i ∧ t_size1 (GCNLayer.weight l0) = hid
       ∧ Forall (λ l, t_size0 (GCNLayer.weight l) = hid
                      ∧ t_size1 (GCNLayer.weight l) = hid) hidden
       ∧ t_size0 (GCNLayer.weight ll) = hid ∧ t_size1 (GCNLayer.weight ll) = cls
       ∧ Forall (λ l, GCNLayer.g l = g ∧ is_Some (GCNLayer.bias l)) (GCN.layers self))
  ∧ (∀ g i hid cls (n : Z) a p (w w' : world T R) (self : EglGCN.t T R),
     EglGCN.init g i hid cls n a p w = (Ok self, w') →
     ∃ l0 hidden ll,
       EglGCN.layers self = l0 :: hidden ++ [ll]
       ∧ length hidden = Z.to_nat (n - 1)
       ∧ t_size0 (EglGCNLayer.weight l0) = i ∧ t_size1 (EglGCNLayer.weight l0) = hid
       ∧ Forall (λ l, t_size0 (EglGCNLayer.weight l) = hid
                      ∧ t_size1 (EglGCNLayer.weight l) = hid) hidden
       ∧ t_size0 (EglGCNLayer.weight ll) = hid ∧ t_size1 (EglGCNLayer.weight ll) = cls
       ∧ Forall (λ l, EglGCNLayer.g l = g ∧ is_Some (EglGCNLayer.bias l))
                (EglGCN.layers self)).
Proof.
  split; intros g i hid cls n a p w w' self Hrun.
  - apply GCN_init_parts in Hrun
      as (l0 & hidden & ll & Hl & Hlen & (wa & wb & H0') & Hall & (wc & wd & Hll)).
    exists l0, hidden, ll. rewrite Hl.
    destruct (GCNLayer_init_shape _ _ _ _ _ _ _ _ _ H0') as [? ?].
    destruct (GCNLayer_init_shape _ _ _ _ _ _ _ _ _ Hll) as [? ?].
    do 4 (split; [done|]). split; [|split; [done|split; [done|]]].
    + eapply Forall_impl; [exact Hall|]. intros l (w1 & w2 & Hl').
      by apply GCNLayer_init_shape in Hl'.
    + constructor; [|apply Forall_app; split; [|constructor; [|constructor]]].
      * destruct (GCNLayer_init_attrs _ _ _ _ _ _ _ _ _ H0') as (? & _ & _ & Hb).
        split; [done|by apply Hb].
      * eapply Forall_impl; [exact Hall|]. intros l (w1 & w2 & Hl').
        destruct (GCNLayer_init_attrs _ _ _ _ _ _ _ _ _ Hl') as (? & _ & _ & Hb).
        split; [done|by apply Hb].
      * destruct (GCNLayer_init_attrs _ _ _ _ _ _ _ _ _ Hll) as (? & _ & _ & Hb).
        split; [done|by apply Hb].
  - apply EglGCN_init_parts in Hrun
      as (l0 & hidden & ll & Hl & Hlen & (wa & wb & H0') & Hall & (wc & wd & Hll)).
    exists l0, hidden, ll. rewrite Hl.
    destruct (EglGCNLayer_init_shape _ _ _ _ _ _ _ _ _ H0') as (? & ? & Hb0).
    destruct (EglGCNLayer_init_shape _ _ _ _ _ _ _ _ _ Hll) as (? & ? & Hbl).
    do 4 (split; [done|]). split; [|split; [done|split; [done|]]].
    + eapply Forall_impl; [exact Hall|]. intros l (w1 & w2 & Hl').
      by apply EglGCNLayer_init_shape in Hl' as (? & ? & _).
    + constructor; [|apply Forall_app; split; [|constructor; [|constructor]]].
      * destruct (EglGCNLayer_init_attrs _ _ _ _ _ _ _ _ _ H0') as (? & _).
        split; [done|by apply Hb0].
      * eapply Forall_impl; [exact Hall|]. intros l (w1 & w2 & Hl').
        destruct (EglGCNLayer_init_attrs _ _ _ _ _ _ _ _ _ Hl') as (? & _).
        apply EglGCNLayer_init_shape in Hl' as (_ & _ & Hb).
        split; [done|by apply Hb].
      * destruct (EglGCNLayer_init_attrs _ _ _ _ _ _ _ _ _ Hll) as (? & _).
        split; [done|by apply Hbl].
Qed.

(** X11. All layers of an EglGCN hold the same tensor object as self.norm,
    the one g.ndata['norm'] was bound to when __init__ started, and the
    same graph; __init__ leaves heap and store as found. *)
Theorem EglGCN_layers_share_norm g i hid cls (n : Z) a p (w w' : world T R)
    (self : EglGCN.t T R) :
  EglGCN.init g i hid cls n a p w = (Ok self, w') →
  ∃ l, ndata w !! "norm" = Some l
       ∧ Forall (λ layer, EglGCNLayer.norm layer = l ∧ EglGCNLayer.g layer = g)
                (EglGCN.layers self)
       ∧ EglGCN.g self = g
       ∧ heap w' = heap w ∧ ndata w' = ndata w.
Proof.
  unfold EglGCN.init. rewrite bind_run.
  destruct (EglGCNLayer.init g i hid a fzero true w) as [[l0|e] w1] eqn:Hin; [|done].
  rewrite bind_run.
  destruct (EglGCN.append_layers _ _ _ w1) as [[ls|e] w2] eqn:Hls; [|done].
  rewrite bind_run.
  destruct (EglGCNLayer.init g hid cls None p true w2) as [[ll|e] w3] eqn:Hll; [|done].
  intros [= <- <-].
  destruct (EglGCNLayer_init_attrs _ _ _ _ _ _ _ _ _ Hin) as (Hg0 & _ & _ & Hk0 & Hh1 & Hn1).
  set (I := λ v : world T R, heap v = heap w ∧ ndata v = ndata w).
  set (P := λ layer : EglGCNLayer.t T R,
              EglGCNLayer.norm layer = EglGCNLayer.norm l0 ∧ EglGCNLayer.g layer = g).
  apply (EglGCN_append_layers_inv I P) in Hls as (hidden & -> & _ & Hall & [Hh2 Hn2]).
  - destruct (EglGCNLayer_init_attrs _ _ _ _ _ _ _ _ _ Hll)
      as (Hgl & _ & _ & Hkl & Hh3 & Hn3).
    exists (EglGCNLayer.norm l0). simpl.
    split; [done|]. split; [|split; [done|split; congruence]].
    constructor; [done|]. apply Forall_app. split; [done|].
    constructor; [|constructor]. split; [|done].
    rewrite Hn2 in Hkl. congruence.
  - intros v l v' [Hv1 Hv2] Hl.
    destruct (EglGCNLayer_init_attrs _ _ _ _ _ _ _ _ _ Hl) as (Hg & _ & _ & Hk & Hh & Hn).
    split; [split; [|done]|split; congruence].
    rewrite Hv2 in Hk. congruence.
  - by split.
Qed.
End StackConstructors.

(** ** Runs on the concrete library *)

Lemma GCNLayer_forward_needs_norm_witness :
  ndata Demo.w_bare !! "norm" = None
  ∧ (GCNLayer.forward Demo.layer3 Demo.feats3 Demo.w_bare).1 = Raise (KeyError "norm")
  ∧ ndata (GCNLayer.forward Demo.layer3 Demo.feats3 Demo.w_bare).2 = ndata Demo.w_bare.
Proof.
  assert (Hk : ndata Demo.w_bare !! "norm" = None) by reflexivity.
  destruct (GCNLayer_forward_needs_norm Demo.layer3 Demo.feats3 Demo.w_bare Hk)
    as (_ & _ & Hn & Hkey & _).
  split; [exact Hk|]. split; [|exact Hn].
  apply (Hkey Demo.feats3 0 Demo.feats3); [reflexivity|by vm_compute].
Defined.

Lemma EglGCNLayer_init_needs_norm_witness :
  ndata Demo.w_bare !! "norm" = None
  ∧ (EglGCNLayer.init Demo.g3 2 4 None 0%Q true Demo.w_bare).1 = Raise (KeyError "norm").
Proof.
  assert (Hk : ndata Demo.w_bare !! "norm" = None) by reflexivity.
  split; [exact Hk|].
  exact (proj1 (EglGCNLayer_init_needs_norm Demo.g3 2 4 None 0%Q true Demo.w_bare Hk)).
Defined.

Lemma GCN_constructors_ignore_the_store_witness :
  rng Demo.w0 = rng Demo.w_bare
  ∧ (GCNLayer.init Demo.g3 2 4 None 0%Q true Demo.w0).1
    = (GCNLayer.init Demo.g3 2 4 None 0%Q true Demo.w_bare).1.
Proof.
  assert (Hr : rng Demo.w0 = rng Demo.w_bare) by reflexivity.
  split; [exact Hr|].
  exact (proj1 (proj1 (@GCN_constructors_ignore_the_store Q nat _ _)
                  Demo.g3 2 4 None 0%Q true Demo.w0 Demo.w_bare Hr)).
Defined.

Lemma layer_constructors_draw_alike_witness :
  (GCNLayer.init Demo.g3 2 4 None 0%Q true Demo.w_bare).1 = Ok Demo.layer_2_4
  ∧ ∃ le, (EglGCNLayer.init Demo.g3 2 4 None 0%Q true Demo.w0).1 = Ok le
          ∧ EglGCNLayer.weight le = GCNLayer.weight Demo.layer_2_4
          ∧ EglGCNLayer.bias le = GCNLayer.bias Demo.layer_2_4.
Proof.
  assert (Hrun : (GCNLayer.init Demo.g3 2 4 None 0%Q true Demo.w_bare).1 = Ok Demo.layer_2_4)
    by (by vm_compute).
  split; [exact Hrun|].
  destruct (proj1 (layer_constructors_draw_alike Demo.g3 2 4 None 0%Q true Demo.w_bare Demo.w0 0
                     eq_refl eq_refl) Demo.layer_2_4 Hrun)
    as (le & Hle & Hw & Hb & _).
  exists le. split; [exact Hle|]. split; [exact Hw|exact Hb].
Defined.

Lemma layer_constructor_zero_out_feats_witness :
  fis_zero (fsqrt_int 0 : Q) = true
  ∧ (GCNLayer.init Demo.g3 2 0 None 0%Q true Demo.w0).1 = Raise ZeroDivisionError
  ∧ rng (GCNLayer.init Demo.g3 2 0 None 0%Q true Demo.w0).2 = rng Demo.w0.
Proof.
  assert (Hz : fis_zero (fsqrt_int 0 : Q) = true) by reflexivity.
  destruct (layer_constructor_zero_out_feats Demo.g3 2 0 None 0%Q true Demo.w0 Hz
              (or_introl eq_refl)) as (He & Hr & _).
  split; [exact Hz|]. split; [exact He|exact Hr].
Defined.

Lemma EglGCNLayer_forward_leaves_ndata_alone_witness :
  ndata (unbind_key "norm" Demo.w0) !! "norm" = None
  ∧ (EglGCNLayer.forward Demo.egl_layer3 Demo.feats3 (unbind_key "norm" Demo.w0)).1
    = (EglGCNLayer.forward Demo.egl_layer3 Demo.feats3 Demo.w0).1.
Proof.
  split; [by vm_compute|].
  exact (proj2 (proj2 (proj2 (proj2 (@EglGCNLayer_forward_leaves_ndata_alone Q nat _ _))))
           Demo.egl_layer3 Demo.feats3 "norm" Demo.w0).
Defined.

Lemma GCN_init_few_layers_witness :
  (0 ≤ 1)%Z
  ∧ ∃ self w', GCN.init Demo.g3 2 4 1 0%Z (Some Demo.relu) (1 # 2)%Q Demo.w0 = (Ok self, w')
               ∧ length (GCN.layers self) = 2.
Proof.
  split; [done|].
  destruct (GCN.init Demo.g3 2 4 1 0%Z (Some Demo.relu) (1 # 2)%Q Demo.w0)
    as [[self|e] w'] eqn:Hrun; [|vm_compute in Hrun; discriminate Hrun].
  exists self, w'. split; [reflexivity|].
  destruct (proj1 (@GCN_init_few_layers Q nat _ _) _ _ _ _ _ _ _ _ _ _
              (ltac:(done) : (0 ≤ 1)%Z) Hrun)
    as (l0 & ll & Hl & _).
  rewrite Hl. reflexivity.
Defined.

Lemma GCN_init_weight_shapes_witness :
  ∃ self w', GCN.init Demo.g3 2 4 1 3%Z (Some Demo.relu) (1 # 2)%Q Demo.w0 = (Ok self, w')
             ∧ ∃ l0 hidden ll,
                 GCN.layers self = l0 :: hidden ++ [ll]
                 ∧ length hidden = 2
                 ∧ t_size0 (GCNLayer.weight l0) = 2 ∧ t_size1 (GCNLayer.weight ll) = 1.
Proof.
  destruct (GCN.init Demo.g3 2 4 1 3%Z (Some Demo.relu) (1 # 2)%Q Demo.w0)
    as [[self|e] w'] eqn:Hrun; [|vm_compute in Hrun; discriminate Hrun].
  exists self, w'. split; [reflexivity|].
  destruct (proj1 (@GCN_init_weight_shapes Q nat _ _) _ _ _ _ _ _ _ _ _ _ Hrun)
    as (l0 & hidden & ll & Hl & Hlen & H0a & _ & _ & _ & Hlb & _).
  exists l0, hidden, ll. split; [exact Hl|]. split; [exact Hlen|].
  split; [exact H0a|exact Hlb].
Defined.

Lemma EglGCN_layers_share_norm_witness :
  ∃ self w', EglGCN.init Demo.g3 2 4 1 2%Z (Some Demo.relu) (1 # 2)%Q Demo.w0 = (Ok self, w')
             ∧ Forall (λ layer, EglGCNLayer.norm layer = 0) (EglGCN.layers self).
Proof.
  destruct (EglGCN.init Demo.g3 2 4 1 2%Z (Some Demo.relu) (1 # 2)%Q Demo.w0)
    as [[self|e] w'] eqn:Hrun; [|vm_compute in Hrun; discriminate Hrun].
  exists self, w'. split; [reflexivity|].
  destruct (EglGCN_layers_share_norm _ _ _ _ _ _ _ _ _ _ Hrun)
    as (l & Hk & Hall & _).
  assert (Hl : l = 0) by (vm_compute in Hk; by injection Hk as <-).
  eapply Forall_impl; [exact Hall|]. intros layer [Hn _]. by rewrite Hn.
Defined.

Lemma GCN_forward_store_witness :
  GCN.layers Demo.gcn3 ≠ []
  ∧ (GCN.forward Demo.gcn3 Demo.feats3 Demo.w0).1
    = Ok [[10; 20]; [30; 60]; [112; 224]]%Q
  ∧ ndata (GCN.forward Demo.gcn3 Demo.feats3 Demo.w0).2 !! "h" = None
  ∧ length (heap (GCN.forward Demo.gcn3 Demo.feats3 Demo.w0).2) = 1 + 2 * 2.
Proof.
  assert (Hne : GCN.layers Demo.gcn3 ≠ []) by done.
  assert (Hrun : GCN.forward Demo.gcn3 Demo.feats3 Demo.w0
                 = (Ok [[10; 20]; [30; 60]; [112; 224]]%Q,
                    (GCN.forward Demo.gcn3 Demo.feats3 Demo.w0).2)) by (vm_compute; reflexivity).
  split; [exact Hne|]. split; [by rewrite Hrun|].
  destruct (proj2 (proj2 (GCN_forward_store Demo.gcn3 Demo.feats3 Demo.w0)) _ _ Hrun)
    as (_ & Hh & Hnone).
  split; [exact (Hnone Hne)|exact Hh].
Defined.

(** The activation of [layer3] is None; that of [layer3_noisy] draws a
    number, and the random state moves. *)
Lemma forward_without_dropout_draws_nothing_witness :
  GCNLayer.dropout Demo.layer3 = Dropout_off
  ∧ draws_nothing (GCNLayer.activation Demo.layer3)
  ∧ rng (GCNLayer.forward Demo.layer3 Demo.feats3 Demo.w0).2 = rng Demo.w0
  ∧ (GCNLayer.forward Demo.layer3 Demo.feats3 (with_rng 7 Demo.w0)).1
    = (GCNLayer.forward Demo.layer3 Demo.feats3 Demo.w0).1
  ∧ rng (GCNLayer.forward Demo.layer3_noisy Demo.feats3 Demo.w0).2 ≠ rng Demo.w0.
Proof.
  assert (Hd : GCNLayer.dropout Demo.layer3 = Dropout_off) by reflexivity.
  assert (Ha : draws_nothing (GCNLayer.activation Demo.layer3)) by exact I.
  destruct (proj1 (@forward_without_dropout_draws_nothing Q nat _ _) Demo.layer3 Demo.feats3
              Hd Ha) as [Hb Hr].
  split; [exact Hd|]. split; [exact Ha|]. split; [exact (Hr Demo.w0)|].
  split; [exact (f_equal fst (Hb Demo.w0 7))|].
  vm_compute. discriminate.
Defined.
